(** * QuickShip: the fan-out / fan-in aggregation engine

    A shallow embedding of [pkg/models], [pkg/services], [pkg/aggregator]
    and of the HTTP entry point [GetCartSummary] of [main.go].

    - Go values are modelled as the code has them: [Status] is a string
      type, [interface{}] is a tagged union of the dynamic types that occur,
      a [*ServiceError] that may be nil is an [option], [float64] is a
      primitive binary64 float, [time.Duration] is an integer number of
      nanoseconds.
    - The goroutines, the buffered channel and the [sync.WaitGroup] of
      [FanOutAndAggregate] are modelled by an executable transition
      function [step]: a run of the engine is a list of [Action]s chosen by
      the Go scheduler.
    - The [select] of [simulatedCall] is resolved on a logical clock whose
      origin is the creation of the shared context. *)

From Stdlib Require Import ZArith Lia.
From Stdlib Require Import PrimFloat.
From stdpp Require Import base option list sets gmap fin_sets strings.

Set Warnings "-clear-no-such-hyp".

Local Open Scope string_scope.
Local Open Scope Z_scope.
Local Open Scope list_scope.

(** ** pkg/models *)

Module models.

(** [type Status string] with its four constants. *)
Definition Status := string.
Definition StatusSuccess  : Status := "SUCCESS".
Definition StatusTimeout  : Status := "TIMEOUT".
Definition StatusError    : Status := "ERROR".
Definition StatusFallback : Status := "FALLBACK".

(** The values of Go's [error] interface that this program meets: the two
    sentinel errors of package [context], and the errors built by
    [fmt.Errorf], which are fresh pointers and so differ from every
    sentinel under [==]. *)
Inductive error :=
| DeadlineExceeded
| Canceled
| Errorf (msg : string).

(** [err == context.DeadlineExceeded] *)
Definition is_DeadlineExceeded (err : error) : bool :=
  match err with DeadlineExceeded => true | _ => false end.

(** [interface{}]: nil, or a value tagged with its dynamic type. *)
Inductive interface :=
| VNil
| VFloat64 (f : float)
| VInt (n : Z)
| VString (s : string).

Record ServiceError := {
  ServiceKey : string;
  Message    : string;
  Timeout    : bool;
  Err        : error
}.

Record CartSummary := {
  ProductID       : string;
  Price           : float;
  PriceStatus     : Status;
  Stock           : Z;
  StockStatus     : Status;
  Promotion       : string;
  PromotionStatus : Status;
  TotalTimeMs     : Z;
  ServiceErrors   : list ServiceError
}.

(** The fields of [FetchResult] live in a module of their own, because
    [Status] also names a type. *)
Module FetchResult.
Record t := {
  Key    : string;
  Value  : interface;
  Status : Status;
  Error  : option ServiceError
}.
End FetchResult.

(** Field assignments [summary.F = v]. *)
Definition set_Price (v : float) (st : Status) (s : CartSummary) : CartSummary :=
  {| ProductID := ProductID s;
     Price := v; PriceStatus := st;
     Stock := Stock s; StockStatus := StockStatus s;
     Promotion := Promotion s; PromotionStatus := PromotionStatus s;
     TotalTimeMs := TotalTimeMs s; ServiceErrors := ServiceErrors s |}.

Definition set_Stock (v : Z) (st : Status) (s : CartSummary) : CartSummary :=
  {| ProductID := ProductID s;
     Price := Price s; PriceStatus := PriceStatus s;
     Stock := v; StockStatus := st;
     Promotion := Promotion s; PromotionStatus := PromotionStatus s;
     TotalTimeMs := TotalTimeMs s; ServiceErrors := ServiceErrors s |}.

Definition set_Promotion (v : string) (st : Status) (s : CartSummary) : CartSummary :=
  {| ProductID := ProductID s;
     Price := Price s; PriceStatus := PriceStatus s;
     Stock := Stock s; StockStatus := StockStatus s;
     Promotion := v; PromotionStatus := st;
     TotalTimeMs := TotalTimeMs s; ServiceErrors := ServiceErrors s |}.

Definition set_TotalTimeMs (v : Z) (s : CartSummary) : CartSummary :=
  {| ProductID := ProductID s;
     Price := Price s; PriceStatus := PriceStatus s;
     Stock := Stock s; StockStatus := StockStatus s;
     Promotion := Promotion s; PromotionStatus := PromotionStatus s;
     TotalTimeMs := v; ServiceErrors := ServiceErrors s |}.

Definition set_ServiceErrors (v : list ServiceError) (s : CartSummary) : CartSummary :=
  {| ProductID := ProductID s;
     Price := Price s; PriceStatus := PriceStatus s;
     Stock := Stock s; StockStatus := StockStatus s;
     Promotion := Promotion s; PromotionStatus := PromotionStatus s;
     TotalTimeMs := TotalTimeMs s; ServiceErrors := v |}.

(** [CartSummary{ProductID: productID}]: every other field at its zero
    value (the zero [Status] is the empty string, a nil slice is the empty
    list). *)
Definition CartSummary_of (productID : string) : CartSummary :=
  {| ProductID := productID;
     Price := 0%float; PriceStatus := "";
     Stock := 0; StockStatus := "";
     Promotion := ""; PromotionStatus := "";
     TotalTimeMs := 0; ServiceErrors := [] |}.

End models.
Import models.

(** ** pkg/models: the text of a [ServiceError] *)

Module text.

(** [err.Error()], which the verb [%v] prints. *)
Definition error_Error (err : error) : string :=
  match err with
  | DeadlineExceeded => "context deadline exceeded"
  | Canceled => "context canceled"
  | Errorf msg => msg
  end.

(** [func (e *ServiceError) Error() string] *)
Definition ServiceError_Error (e : ServiceError) : string :=
  if Timeout e then
    String.append "Service '" (String.append (ServiceKey e)
      (String.append "' timed out: " (String.append (Message e)
        (String.append " (" (String.append (error_Error (Err e)) ")")))))
  else
    String.append "Service '" (String.append (ServiceKey e)
      (String.append "' failed: " (String.append (Message e)
        (String.append " (" (String.append (error_Error (Err e)) ")"))))).

End text.

(** ** Time, contexts and [select] *)

Module rt.

(** [time.Duration]: nanoseconds.  Instants are nanoseconds on a clock
    whose origin is the call of [context.WithTimeout] of the round. *)
Definition Duration := Z.
Definition Millisecond : Duration := 1000000.

(** A context made by [context.WithTimeout]: [Done()] is closed at
    [deadline].  [FanOutAndAggregate] calls [cancel] only on its way out
    (it is deferred), after every worker is finished, so the deadline is
    the only thing that closes [Done()] while a backend call runs. *)
Record Context := { deadline : Z }.

Definition WithTimeout (now : Z) (timeout : Duration) : Context :=
  {| deadline := now + timeout |}.

(** [ctx.Err()], read after [Done()] was closed. *)
Definition ctx_Err (ctx : Context) : error := DeadlineExceeded.

Inductive SelectCase := TimerFired | CtxDone.

(** What the Go runtime decides for one backend call: the instant at
    which the worker goroutine reaches its [select], and the case picked
    if both channels are ready when the goroutine is woken. *)
Record Timing := {
  started : Z;
  on_tie  : SelectCase
}.

(** [time.After(delay)] delivers at [started + delay]; a delay that is not
    positive delivers at once. *)
Definition timer_at (tm : Timing) (delay : Duration) : Z :=
  started tm + Z.max 0 delay.

(** The instant at which [select] returns: the first instant, not before
    [started], at which one of the two channels is ready. *)
Definition woken_at (ctx : Context) (tm : Timing) (delay : Duration) : Z :=
  Z.max (started tm) (Z.min (timer_at tm delay) (deadline ctx)).

(** [select { case <-time.After(delay): ... case <-ctx.Done(): ... }] *)
Definition select (ctx : Context) (tm : Timing) (delay : Duration) : SelectCase :=
  let w := woken_at ctx tm delay in
  if bool_decide (timer_at tm delay ≤ w) then
    if bool_decide (deadline ctx ≤ w) then on_tie tm else TimerFired
  else CtxDone.

End rt.
Import rt.

(** [ServiceFn]: a backend call.  [None] stands for a call that never
    returns. *)
Definition ServiceFn : Type :=
  Context → Timing → string → option (interface * option error).

(** ** pkg/services *)

Module services.

Definition simulatedCall (ctx : Context) (tm : Timing) (delay : Duration)
    (productID : string) (fail : bool) (value : interface)
    : interface * option error :=
  match select ctx tm delay with
  | TimerFired =>
      if fail then (VNil, Some (Errorf "backend server responded with 503"))
      else (value, None)
  | CtxDone => (VNil, Some (ctx_Err ctx))
  end.

(** The float64 nearest to the constant 49.99. *)
Definition price_49_99 : float := 0x1.8feb851eb851fp+5%float.

Definition FetchPriceSimulates : ServiceFn := λ ctx tm productID,
  let delay :=
    if decide (productID = "TEST-SKU-TIMEOUT") then 500 * Millisecond
    else 200 * Millisecond in
  Some (simulatedCall ctx tm delay productID false (VFloat64 price_49_99)).

Definition FetchInventorySimulates : ServiceFn := λ ctx tm productID,
  Some (simulatedCall ctx tm (400 * Millisecond) productID false (VInt 120)).

Definition FetchPromotionsSimulates : ServiceFn := λ ctx tm productID,
  Some (simulatedCall ctx tm (50 * Millisecond) productID false
          (VString "Buy 1 Get 1 Half Off!")).

Definition ServiceMap : gmap string ServiceFn :=
  <["price" := FetchPriceSimulates]>
    (<["stock" := FetchInventorySimulates]>
       (<["promotion" := FetchPromotionsSimulates]> ∅)).

End services.
Import services.

(** ** pkg/aggregator *)

Module aggregator.

Definition aggregationTimeout : Duration := 450 * Millisecond.

(** *** The worker

    [executeService] up to its channel send: the [FetchResult] that the
    worker puts on [resultChan], or [None] if the backend call never
    returns.  The send itself and the deferred [wg.Done()] are the actions
    [WorkerSend] and [WorkerDone] below. *)
Definition executeService (ctx : Context) (tm : Timing) (key productID : string)
    (fn : ServiceFn) : option FetchResult.t :=
  match fn ctx tm productID with
  | None => None
  | Some (value, Some err) =>
      if is_DeadlineExceeded err then
        Some {| FetchResult.Key := key;
                FetchResult.Value := value;
                FetchResult.Status := StatusTimeout;
                FetchResult.Error := Some
                  {| ServiceKey := key;
                     Err := err;
                     Message := "Service execution exceeded the global aggregation timeout";
                     Timeout := true |} |}
      else
        Some {| FetchResult.Key := key;
                FetchResult.Value := value;
                FetchResult.Status := StatusError;
                FetchResult.Error := Some
                  {| ServiceKey := key;
                     Err := err;
                     Message := "External service call failed";
                     Timeout := false |} |}
  | Some (value, None) =>
      Some {| FetchResult.Key := key;
              FetchResult.Value := value;
              FetchResult.Status := StatusSuccess;
              FetchResult.Error := None |}
  end.

(** *** The body of the fan-in loop *)

Definition fallbackPrice : float := 0%float.
Definition fallbackStock : Z := 0.
Definition fallbackPromotion : string := "No promotions available".

(** The type assertions [v.(float64)], [v.(int)], [v.(string)]: [None]
    is the run-time panic. *)
Definition assert_float64 (v : interface) : option float :=
  match v with VFloat64 f => Some f | _ => None end.
Definition assert_int (v : interface) : option Z :=
  match v with VInt n => Some n | _ => None end.
Definition assert_string (v : interface) : option string :=
  match v with VString s => Some s | _ => None end.

(** One iteration of [for res := range resultChan], on the local
    variables [summary] and [serviceErrors]; [None] is a panic. *)
Definition fanIn (res : FetchResult.t) (summary : CartSummary)
    (serviceErrors : list ServiceError)
    : option (CartSummary * list ServiceError) :=
  let serviceErrors :=
    match FetchResult.Error res with
    | Some e => serviceErrors ++ [e]
    | None => serviceErrors
    end in
  if decide (FetchResult.Key res = "price") then
    if decide (FetchResult.Status res = StatusSuccess) then
      v ← assert_float64 (FetchResult.Value res);
      Some (set_Price v StatusSuccess summary, serviceErrors)
    else Some (set_Price fallbackPrice StatusFallback summary, serviceErrors)
  else if decide (FetchResult.Key res = "stock") then
    if decide (FetchResult.Status res = StatusSuccess) then
      v ← assert_int (FetchResult.Value res);
      Some (set_Stock v StatusSuccess summary, serviceErrors)
    else Some (set_Stock fallbackStock StatusFallback summary, serviceErrors)
  else if decide (FetchResult.Key res = "promotion") then
    if decide (FetchResult.Status res = StatusSuccess) then
      v ← assert_string (FetchResult.Value res);
      Some (set_Promotion v StatusSuccess summary, serviceErrors)
    else Some (set_Promotion fallbackPromotion StatusFallback summary, serviceErrors)
  else Some (summary, serviceErrors).

(** The loop over the outcomes received so far. *)
Fixpoint drain (rs : list FetchResult.t) (summary : CartSummary)
    (serviceErrors : list ServiceError)
    : option (CartSummary * list ServiceError) :=
  match rs with
  | [] => Some (summary, serviceErrors)
  | res :: rs =>
      match fanIn res summary serviceErrors with
      | Some (summary, serviceErrors) => drain rs summary serviceErrors
      | None => None
      end
  end.

(** *** The goroutines of one round *)

(** Where the calling goroutine is. *)
Inductive MainPc :=
| MFanOut
| MDrain (summary : CartSummary) (serviceErrors : list ServiceError)
| MReturned (summary : CartSummary) (err : option error).

(** Where the goroutine of [wg.Wait(); close(resultChan)] is. *)
Inductive JoinPc := JNotStarted | JWaiting | JDone.

Inductive Panic :=
| PanicTypeAssertion
| PanicSendOnClosedChannel
| PanicNegativeWaitGroup.

Record State := {
  pc       : MainPc;
  joiner   : JoinPc;
  launched : gset string;          (* workers started by [go executeService] *)
  sent     : gset string;          (* workers past their channel send *)
  finished : gset string;          (* workers past their [wg.Done()] *)
  wg       : Z;                    (* the WaitGroup counter *)
  buf      : list FetchResult.t;   (* the buffer of [resultChan] *)
  closed   : bool;                 (* [resultChan] is closed *)
  drained  : list FetchResult.t;   (* history: what the loop has received *)
  panic    : option Panic
}.

(** What the scheduler can pick next. *)
Inductive Action :=
| GoWorker (key : string)     (* one iteration of the fan-out loop *)
| GoJoin                      (* the loop is over: start the join task *)
| WorkerSend (key : string)   (* the call returns, the result is sent *)
| WorkerDone (key : string)   (* the deferred [wg.Done()] *)
| JoinClose                   (* [wg.Wait()] returns, [close(resultChan)] *)
| MainRecv                    (* one iteration of the fan-in loop *)
| MainReturn.                 (* the channel is closed and empty *)

Section Round.

(** The registry ([services.ServiceMap] in the source), the timing of
    each worker's backend call, and the argument of the call. *)
Variable reg : gmap string ServiceFn.
Variable env : string → Timing.
Variable productID : string.

Definition ctx : Context := WithTimeout 0 aggregationTimeout.

(** The [FetchResult] the worker of [key] sends. *)
Definition outcome (key : string) : option FetchResult.t :=
  fn ← reg !! key; executeService ctx (env key) key productID fn.

Definition init : State :=
  {| pc := MFanOut; joiner := JNotStarted;
     launched := ∅; sent := ∅; finished := ∅;
     wg := Z.of_nat (size reg);
     buf := []; closed := false; drained := []; panic := None |}.

Definition goWorker (key : string) (σ : State) : option State :=
  match pc σ with
  | MFanOut =>
      if decide (key ∈ dom reg ∧ key ∉ launched σ) then
        Some {| pc := pc σ; joiner := joiner σ;
                launched := {[key]} ∪ launched σ;
                sent := sent σ; finished := finished σ; wg := wg σ;
                buf := buf σ; closed := closed σ; drained := drained σ;
                panic := panic σ |}
      else None
  | _ => None
  end.

Definition goJoin (σ : State) : option State :=
  match pc σ with
  | MFanOut =>
      if decide (launched σ = dom reg) then
        Some {| pc := MDrain (CartSummary_of productID) [];
                joiner := JWaiting;
                launched := launched σ;
                sent := sent σ; finished := finished σ; wg := wg σ;
                buf := buf σ; closed := closed σ; drained := drained σ;
                panic := panic σ |}
      else None
  | _ => None
  end.

Definition workerSend (key : string) (σ : State) : option State :=
  if decide (key ∈ launched σ ∧ key ∉ sent σ) then
    match outcome key with
    | None => None
    | Some result =>
        if closed σ then
          Some {| pc := pc σ; joiner := joiner σ; launched := launched σ;
                  sent := sent σ; finished := finished σ; wg := wg σ;
                  buf := buf σ; closed := closed σ; drained := drained σ;
                  panic := Some PanicSendOnClosedChannel |}
        else if decide (length (buf σ) < size reg)%nat then
          Some {| pc := pc σ; joiner := joiner σ; launched := launched σ;
                  sent := {[key]} ∪ sent σ;
                  finished := finished σ; wg := wg σ;
                  buf := buf σ ++ [result];
                  closed := closed σ; drained := drained σ;
                  panic := panic σ |}
        else None
    end
  else None.

Definition workerDone (key : string) (σ : State) : option State :=
  if decide (key ∈ sent σ ∧ key ∉ finished σ) then
    if decide (wg σ - 1 < 0) then
      Some {| pc := pc σ; joiner := joiner σ; launched := launched σ;
              sent := sent σ; finished := finished σ; wg := wg σ;
              buf := buf σ; closed := closed σ; drained := drained σ;
              panic := Some PanicNegativeWaitGroup |}
    else
      Some {| pc := pc σ; joiner := joiner σ; launched := launched σ;
              sent := sent σ;
              finished := {[key]} ∪ finished σ;
              wg := wg σ - 1;
              buf := buf σ; closed := closed σ; drained := drained σ;
              panic := panic σ |}
  else None.

Definition joinClose (σ : State) : option State :=
  match joiner σ with
  | JWaiting =>
      if decide (wg σ = 0) then
        Some {| pc := pc σ; joiner := JDone; launched := launched σ;
                sent := sent σ; finished := finished σ; wg := wg σ;
                buf := buf σ; closed := true; drained := drained σ;
                panic := panic σ |}
      else None
  | _ => None
  end.

Definition mainRecv (σ : State) : option State :=
  match pc σ, buf σ with
  | MDrain summary serviceErrors, res :: rest =>
      match fanIn res summary serviceErrors with
      | Some (summary', serviceErrors') =>
          Some {| pc := MDrain summary' serviceErrors';
                  joiner := joiner σ; launched := launched σ;
                  sent := sent σ; finished := finished σ; wg := wg σ;
                  buf := rest; closed := closed σ;
                  drained := drained σ ++ [res];
                  panic := panic σ |}
      | None =>
          Some {| pc := pc σ;
                  joiner := joiner σ; launched := launched σ;
                  sent := sent σ; finished := finished σ; wg := wg σ;
                  buf := rest; closed := closed σ;
                  drained := drained σ ++ [res];
                  panic := Some PanicTypeAssertion |}
      end
  | _, _ => None
  end.

Definition mainReturn (σ : State) : option State :=
  match pc σ, buf σ, closed σ with
  | MDrain summary serviceErrors, [], true =>
      Some {| pc := MReturned (set_ServiceErrors serviceErrors summary) None;
              joiner := joiner σ; launched := launched σ;
              sent := sent σ; finished := finished σ; wg := wg σ;
              buf := buf σ; closed := closed σ; drained := drained σ;
              panic := panic σ |}
  | _, _, _ => None
  end.

(** One scheduling step; [None] when the action is not enabled (the
    goroutine is blocked or is elsewhere).  A panic stops everything. *)
Definition step (a : Action) (σ : State) : option State :=
  match panic σ with
  | Some _ => None
  | None =>
      match a with
      | GoWorker key => goWorker key σ
      | GoJoin => goJoin σ
      | WorkerSend key => workerSend key σ
      | WorkerDone key => workerDone key σ
      | JoinClose => joinClose σ
      | MainRecv => mainRecv σ
      | MainReturn => mainReturn σ
      end
  end.

Fixpoint exec (sched : list Action) (σ : State) : option State :=
  match sched with
  | [] => Some σ
  | a :: sched =>
      match step a σ with
      | Some σ' => exec sched σ'
      | None => None
      end
  end.

(** The state of a round of [FanOutAndAggregate(productID)] after the
    scheduler has taken the steps [sched]. *)
Definition FanOutAndAggregate (sched : list Action) : option State :=
  exec sched init.

(** The call returns [(summary, err)] under some schedule. *)
Definition Returns (summary : CartSummary) (err : option error) : Prop :=
  ∃ sched σ, FanOutAndAggregate sched = Some σ ∧ pc σ = MReturned summary err.

(** The call panics under some schedule. *)
Definition Panics (p : Panic) : Prop :=
  ∃ sched σ, FanOutAndAggregate sched = Some σ ∧ panic σ = Some p.

(** The round is over: the call has returned or the program has
    panicked. *)
Definition over (σ : State) : Prop :=
  is_Some (panic σ) ∨ ∃ summary err, pc σ = MReturned summary err.

End Round.

End aggregator.
Import aggregator.

(** ** main.go *)

Module handler.

Inductive Response :=
| HttpError (code : Z) (msg : string)        (* [http.Error] *)
| HttpJSON (code : Z) (body : CartSummary).  (* [WriteHeader], [Encode] *)

(** [time.Duration.Milliseconds]: integer division, truncated. *)
Definition Milliseconds (d : Duration) : Z := Z.quot d 1000000.

(** [GetCartSummary] from the return of the engine on: [result] is what
    [aggregator.FanOutAndAggregate] returned and [elapsed] is
    [time.Since(start)]. *)
Definition GetCartSummary (result : CartSummary * option error)
    (elapsed : Duration) : Response :=
  let '(summary, err) := result in
  match err with
  | Some _ =>
      HttpError 500 "Failed to aggregate data due to internal system error"
  | None =>
      let summary := set_TotalTimeMs (Milliseconds elapsed) summary in
      HttpJSON 200 summary
  end.

End handler.
Import handler.

(** ** main.go: the CORS middleware *)

Module cors.

Definition dashboardPort : string := ":3000".

(** What the middleware reads of the [*http.Request]. *)
Record Request := { Method : string }.

(** What the middleware writes of the [http.ResponseWriter]: the header
    map, and the status code once [WriteHeader] has been called. *)
Record ResponseWriter := {
  Header : gmap string (list string);
  Code   : option Z
}.

(** [w.Header().Set(key, value)]: the key holds this single value. *)
Definition Header_Set (key value : string) (w : ResponseWriter) : ResponseWriter :=
  {| Header := <[key := [value]]> (Header w); Code := Code w |}.

(** [w.WriteHeader(code)]: the first call decides the status, a later
    call is ignored. *)
Definition WriteHeader (code : Z) (w : ResponseWriter) : ResponseWriter :=
  match Code w with
  | Some _ => w
  | None => {| Header := Header w; Code := Some code |}
  end.

(** [http.Handler], as a transformer of the writer. *)
Definition Handler : Type := Request → ResponseWriter → ResponseWriter.

Definition enableCORS (next : Handler) : Handler := λ r w,
  let w := Header_Set "Access-Control-Allow-Origin"
             (String.append "http://localhost" dashboardPort) w in
  let w := Header_Set "Access-Control-Allow-Methods" "GET, POST, OPTIONS" w in
  let w := Header_Set "Access-Control-Allow-Headers" "Content-Type" w in
  if decide (Method r = "OPTIONS") then WriteHeader 200 w
  else next r w.

End cors.

(** ** What a round is expected to compute *)

Module spec.

(** What the price field of the Summary is after a round, from the
    outcome of the worker registered under "price" ([None] when no such
    worker is registered).  The outer [None] is a panic. *)
Definition price_field (o : option FetchResult.t) : option (float * Status) :=
  match o with
  | None => Some (0%float, "")
  | Some r =>
      if decide (FetchResult.Status r = StatusSuccess)
      then f ← assert_float64 (FetchResult.Value r); Some (f, StatusSuccess)
      else Some (fallbackPrice, StatusFallback)
  end.

Definition stock_field (o : option FetchResult.t) : option (Z * Status) :=
  match o with
  | None => Some (0, "")
  | Some r =>
      if decide (FetchResult.Status r = StatusSuccess)
      then n ← assert_int (FetchResult.Value r); Some (n, StatusSuccess)
      else Some (fallbackStock, StatusFallback)
  end.

Definition promotion_field (o : option FetchResult.t) : option (string * Status) :=
  match o with
  | None => Some ("", "")
  | Some r =>
      if decide (FetchResult.Status r = StatusSuccess)
      then s ← assert_string (FetchResult.Value r); Some (s, StatusSuccess)
      else Some (fallbackPromotion, StatusFallback)
  end.

(** A backend written with [simulatedCall], whatever its delay, its
    failure switch and its value. *)
Definition simulated (fn : ServiceFn) : Prop :=
  ∃ (delay : string → Duration) (fail : bool) (value : interface),
    ∀ ctx tm productID,
      fn ctx tm productID
      = Some (simulatedCall ctx tm (delay productID) productID fail value).

(** The delay that [FetchPriceSimulates] passes to [simulatedCall]. *)
Definition price_delay (productID : string) : Duration :=
  if decide (productID = "TEST-SKU-TIMEOUT") then 500 * Millisecond
  else 200 * Millisecond.

(** An outcome on which no iteration of the fan-in loop panics. *)
Definition well_typed (r : FetchResult.t) : Prop :=
  ∀ summary serviceErrors, is_Some (fanIn r summary serviceErrors).

Section Round.

Variable reg : gmap string ServiceFn.
Variable env : string → Timing.
Variable productID : string.

(** The outcomes of all the workers of the round. *)
Definition outcomes : list FetchResult.t :=
  omap (outcome reg env productID) (elements (dom reg)).

(** Every registered backend returns. *)
Definition backends_return : Prop :=
  ∀ key, key ∈ dom reg → is_Some (outcome reg env productID key).

(** Every registered backend returns, with a value of the type that the
    fan-in loop asserts when the call succeeds. *)
Definition backends_well_typed : Prop :=
  ∀ key, key ∈ dom reg →
    ∃ r, outcome reg env productID key = Some r ∧ well_typed r.

Definition drained_so_far (σ : State) : option (CartSummary * list ServiceError) :=
  drain (drained σ) (CartSummary_of productID) [].

(** The invariant of the transition system. *)
Record Inv (σ : State) : Prop := {
  inv_finished : finished σ ⊆ sent σ;
  inv_sent : sent σ ⊆ launched σ;
  inv_launched : launched σ ⊆ dom reg;
  inv_wg : wg σ = Z.of_nat (size reg) - Z.of_nat (size (finished σ));
  inv_fanout : joiner σ = JNotStarted ↔ pc σ = MFanOut;
  inv_all : pc σ ≠ MFanOut → launched σ = dom reg;
  inv_closed : closed σ = true ↔ joiner σ = JDone;
  inv_close_all : closed σ = true → finished σ = dom reg;
  inv_chan :
    drained σ ++ buf σ ≡ₚ omap (outcome reg env productID) (elements (sent σ));
  inv_some : ∀ k, k ∈ sent σ → is_Some (outcome reg env productID k);
  inv_pc :
    match pc σ with
    | MFanOut => drained σ = []
    | MDrain summary serviceErrors =>
        panic σ = None → drained_so_far σ = Some (summary, serviceErrors)
    | MReturned summary err =>
        err = None ∧ buf σ = [] ∧ closed σ = true ∧ panic σ = None ∧
        ∃ summary0 serviceErrors,
          drained_so_far σ = Some (summary0, serviceErrors) ∧
          summary = set_ServiceErrors serviceErrors summary0
    end;
  inv_panic :
    ∀ p, panic σ = Some p → p = PanicTypeAssertion ∧ drained_so_far σ = None
}.

(** A bound on the number of steps that are still possible. *)
Definition fuel (σ : State) : nat :=
  match panic σ with
  | Some _ => 0
  | None =>
      S ((size reg - size (launched σ))
         + (size reg - size (sent σ))
         + (size reg - size (finished σ))
         + (size reg - length (drained σ))
         + match joiner σ with JDone => 0 | _ => 1 end
         + match pc σ with MFanOut => 2 | MDrain _ _ => 1 | MReturned _ _ => 0 end)%nat
  end.

End Round.

End spec.
Import spec.

(** ** The round on the clock *)

Module timed.

(** A backend written with [simulatedCall]: the delay (which may depend on
    the product id), the failure switch and the value that it passes. *)
Record Sim := {
  sim_delay : string → Duration;
  sim_fail  : bool;
  sim_value : interface
}.

Definition backend (s : Sim) : ServiceFn := λ ctx tm productID,
  Some (simulatedCall ctx tm (sim_delay s productID) productID
          (sim_fail s) (sim_value s)).

Definition registry (sims : gmap string Sim) : gmap string ServiceFn :=
  backend <$> sims.

(** The backends of [services.ServiceMap]. *)
Definition shipped : gmap string Sim :=
  <["price" := {| sim_delay := price_delay; sim_fail := false;
                  sim_value := VFloat64 price_49_99 |}]>
    (<["stock" := {| sim_delay := λ _, 400 * Millisecond; sim_fail := false;
                     sim_value := VInt 120 |}]>
       (<["promotion" := {| sim_delay := λ _, 50 * Millisecond;
                            sim_fail := false;
                            sim_value := VString "Buy 1 Get 1 Half Off!" |}]>
          ∅)).

(** The instant at which [simulatedCall] returns: the instant at which the
    case that its [select] takes became ready. *)
Definition returns_at (ctx : Context) (tm : Timing) (delay : Duration) : Z :=
  match select ctx tm delay with
  | TimerFired => timer_at tm delay
  | CtxDone => Z.max (started tm) (deadline ctx)
  end.

(** The state of a round together with the instant of its last step, on
    the clock whose origin is the creation of the context. *)
Record Clocked := {
  now   : Z;
  state : State
}.

Section Round.

Variable sims : gmap string Sim.
Variable env : string → Timing.
Variable productID : string.

(** The scheduling overhead: a goroutine that can run takes its step within
    [overhead] of the previous step of the round, a worker started by
    [go executeService] reaches its backend call within [overhead], and a
    worker whose call is in flight sends within [overhead] of its return. *)
Variable overhead : Z.

Definition start : Clocked := {| now := 0; state := init (registry sims) |}.

(** May the action be taken at instant [t]? *)
Definition on_time (t : Z) (a : Action) (τ : Clocked) : bool :=
  match a with
  | GoWorker key =>
      bool_decide (now τ ≤ t ≤ now τ + overhead
                   ∧ t ≤ started (env key) ≤ t + overhead)
  | WorkerSend key =>
      match sims !! key with
      | Some s =>
          let w := returns_at ctx (env key) (sim_delay s productID) in
          bool_decide (now τ ≤ t ∧ w ≤ t ≤ Z.max (now τ) w + overhead)
      | None => false
      end
  | _ => bool_decide (now τ ≤ t ≤ now τ + overhead)
  end.

(** One step of the round at instant [t]. *)
Definition tick (ta : Z * Action) (τ : Clocked) : option Clocked :=
  match step (registry sims) env productID ta.2 (state τ) with
  | Some σ' =>
      if on_time ta.1 ta.2 τ then Some {| now := ta.1; state := σ' |}
      else None
  | None => None
  end.

Fixpoint run (ts : list (Z * Action)) (τ : Clocked) : option Clocked :=
  match ts with
  | [] => Some τ
  | ta :: ts =>
      match tick ta τ with
      | Some τ' => run ts τ'
      | None => None
      end
  end.

(** Invariant: the workers that have been started reach their call within
    the overhead of the present instant. *)
Definition started_by (τ : Clocked) : Prop :=
  ∀ k, k ∈ launched (state τ) → started (env k) ≤ now τ + overhead.

(** The round of [FanOutAndAggregate(productID)] after the steps [ts],
    each at its instant. *)
Definition FanOutAndAggregate_at (ts : list (Z * Action)) : option Clocked :=
  run ts start.

End Round.

End timed.

(** ** Concrete rounds *)

Module examples.

(** Every worker reaches its [select] at the instant the context is
    created. *)
Definition prompt : string → Timing :=
  λ _, {| started := 0; on_tie := TimerFired |}.

(** An interleaving of the three workers, the join task and the loop. *)
Definition interleaved : list Action :=
  [GoWorker "stock"; GoWorker "price"; WorkerSend "price";
   GoWorker "promotion"; GoJoin; MainRecv; WorkerSend "promotion";
   WorkerDone "price"; WorkerSend "stock"; MainRecv; WorkerDone "stock";
   WorkerDone "promotion"; MainRecv; JoinClose; MainReturn].

Definition all_success (productID : string) : CartSummary :=
  {| ProductID := productID;
     Price := price_49_99; PriceStatus := StatusSuccess;
     Stock := 120; StockStatus := StatusSuccess;
     Promotion := "Buy 1 Get 1 Half Off!"; PromotionStatus := StatusSuccess;
     TotalTimeMs := 0; ServiceErrors := [] |}.

Definition price_timeout_error : ServiceError :=
  {| ServiceKey := "price";
     Message := "Service execution exceeded the global aggregation timeout";
     Timeout := true;
     Err := DeadlineExceeded |}.

Definition price_timed_out (productID : string) : CartSummary :=
  {| ProductID := productID;
     Price := 0%float; PriceStatus := StatusFallback;
     Stock := 120; StockStatus := StatusSuccess;
     Promotion := "Buy 1 Get 1 Half Off!"; PromotionStatus := StatusSuccess;
     TotalTimeMs := 0; ServiceErrors := [price_timeout_error] |}.

(** What the price worker sends when its call is cut by the deadline. *)
Definition price_timeout_outcome : FetchResult.t :=
  {| FetchResult.Key := "price";
     FetchResult.Value := VNil;
     FetchResult.Status := StatusTimeout;
     FetchResult.Error := Some price_timeout_error |}.

(** A backend that answers 503 after 100ms. *)
Definition failing : ServiceFn := λ ctx tm productID,
  Some (simulatedCall ctx tm (100 * Millisecond) productID true (VInt 7)).

(** A registry in which two backends fail. *)
Definition flaky : gmap string ServiceFn :=
  <["price" := failing]> (<["stock" := failing]> ∅).

Definition failed (key : string) : ServiceError :=
  {| ServiceKey := key;
     Message := "External service call failed";
     Timeout := false;
     Err := Errorf "backend server responded with 503" |}.

Definition both_failed (productID : string) (errs : list ServiceError)
    : CartSummary :=
  {| ProductID := productID;
     Price := 0%float; PriceStatus := StatusFallback;
     Stock := 0; StockStatus := StatusFallback;
     Promotion := ""; PromotionStatus := "";
     TotalTimeMs := 0; ServiceErrors := errs |}.

Definition price_first : list Action :=
  [GoWorker "price"; GoWorker "stock"; GoJoin;
   WorkerSend "price"; WorkerSend "stock"; WorkerDone "price";
   WorkerDone "stock"; JoinClose; MainRecv; MainRecv; MainReturn].

Definition stock_first : list Action :=
  [GoWorker "stock"; GoWorker "price"; GoJoin;
   WorkerSend "stock"; MainRecv; WorkerSend "price"; WorkerDone "stock";
   WorkerDone "price"; MainRecv; JoinClose; MainReturn].

(** The round of an empty registry. *)
Definition no_worker : list Action := [GoJoin; JoinClose; MainReturn].

(** A backend registered under "price" that succeeds with a string. *)
Definition mistyped : ServiceFn := λ ctx tm productID,
  Some (simulatedCall ctx tm (100 * Millisecond) productID false
          (VString "49.99")).

Definition mistyped_registry : gmap string ServiceFn :=
  <["price" := mistyped]> ∅.

Definition one_worker (key : string) : list Action :=
  [GoWorker key; GoJoin; WorkerSend key; WorkerDone key; JoinClose;
   MainRecv].

(** A registry whose only key is not one the loop knows. *)
Definition tax_only : gmap string ServiceFn := <["tax" := failing]> ∅.

Definition tax_failed (productID : string) : CartSummary :=
  {| ProductID := productID;
     Price := 0%float; PriceStatus := "";
     Stock := 0; StockStatus := "";
     Promotion := ""; PromotionStatus := "";
     TotalTimeMs := 0; ServiceErrors := [failed "tax"] |}.

(** The price worker is started 10ms after the context was created. *)
Definition price_late : string → Timing := λ key,
  {| started := if decide (key = "price") then 10 * Millisecond else 0;
     on_tie := TimerFired |}.

(** A handler that answers 404. *)
Definition not_found : cors.Handler := λ _ w, cors.WriteHeader 404 w.

Definition blank : cors.ResponseWriter :=
  {| cors.Header := ∅; cors.Code := None |}.

(** The shipped registry with one more backend, which fails. *)
Definition with_tax : gmap string ServiceFn := <["tax" := failing]> ServiceMap.

Definition four_workers : list Action :=
  [GoWorker "tax"; GoWorker "stock"; GoWorker "price"; GoWorker "promotion";
   GoJoin; WorkerSend "promotion"; WorkerSend "tax"; WorkerSend "price";
   WorkerSend "stock"; MainRecv; MainRecv; WorkerDone "tax";
   WorkerDone "stock"; WorkerDone "price"; WorkerDone "promotion"; MainRecv;
   JoinClose; MainRecv; MainReturn].

Definition all_success_but_tax (productID : string) : CartSummary :=
  {| ProductID := productID;
     Price := price_49_99; PriceStatus := StatusSuccess;
     Stock := 120; StockStatus := StatusSuccess;
     Promotion := "Buy 1 Get 1 Half Off!"; PromotionStatus := StatusSuccess;
     TotalTimeMs := 0; ServiceErrors := [failed "tax"] |}.

(** The price worker reaches its select 300ms after the context was
    created. *)
Definition price_stalled : string → Timing := λ key,
  {| started := if decide (key = "price") then 300 * Millisecond else 0;
     on_tie := TimerFired |}.

(** The price worker reaches its select when the deadline has passed. *)
Definition price_after_deadline : string → Timing := λ key,
  {| started := if decide (key = "price") then 450 * Millisecond else 0;
     on_tie := TimerFired |}.

(** The round of [interleaved] with the workers started at once: each send
    happens when the timer of its backend fires. *)
Definition interleaved_at : list (Z * Action) :=
  [(0, GoWorker "stock"); (0, GoWorker "price"); (0, GoWorker "promotion");
   (0, GoJoin);
   (50 * Millisecond, WorkerSend "promotion"); (50 * Millisecond, MainRecv);
   (50 * Millisecond, WorkerDone "promotion");
   (200 * Millisecond, WorkerSend "price"); (200 * Millisecond, MainRecv);
   (200 * Millisecond, WorkerDone "price");
   (400 * Millisecond, WorkerSend "stock");
   (400 * Millisecond, WorkerDone "stock");
   (400 * Millisecond + 20000, JoinClose);
   (400 * Millisecond + 30000, MainRecv);
   (400 * Millisecond + 35000, MainReturn)].

End examples.
Import examples.

(** * Proofs *)

(** ** The fan-in loop *)

Section FanIn.

Implicit Types (r res : FetchResult.t) (rs : list FetchResult.t).
Implicit Types (s summary : CartSummary) (e serviceErrors : list ServiceError).

Lemma fanIn_errors res s e s' e' :
  fanIn res s e = Some (s', e') →
  e' = e ++ from_option (λ x, [x]) [] (FetchResult.Error res).
Proof.
  unfold fanIn. intros H.
  assert (Hnil : e = e ++ []) by by rewrite app_nil_r.
  destruct (FetchResult.Error res); simpl in *;
    repeat case_decide; simplify_option_eq; done.
Qed.

Lemma fanIn_frame res s e s' e' :
  fanIn res s e = Some (s', e') →
  ProductID s' = ProductID s ∧ TotalTimeMs s' = TotalTimeMs s
  ∧ ServiceErrors s' = ServiceErrors s.
Proof.
  unfold fanIn. intros H.
  repeat case_decide; simplify_option_eq; done.
Qed.

Lemma drain_snoc rs r s e :
  drain (rs ++ [r]) s e =
    match drain rs s e with
    | Some (s', e') => fanIn r s' e'
    | None => None
    end.
Proof.
  revert s e. induction rs as [|r0 rs IH]; intros s e; simpl.
  - destruct (fanIn r s e) as [[??]|]; done.
  - destruct (fanIn r0 s e) as [[??]|]; [apply IH | done].
Qed.

Lemma drain_frame rs s e s' e' :
  drain rs s e = Some (s', e') →
  ProductID s' = ProductID s ∧ TotalTimeMs s' = TotalTimeMs s
  ∧ ServiceErrors s' = ServiceErrors s.
Proof.
  revert s e. induction rs as [|r rs IH]; intros s e; simpl.
  - by intros [= -> ->].
  - destruct (fanIn r s e) as [[s1 e1]|] eqn:Hr; [|done].
    intros (-> & -> & ->)%IH. by apply fanIn_frame in Hr.
Qed.

Lemma drain_errors rs s e s' e' :
  drain rs s e = Some (s', e') → e' = e ++ omap FetchResult.Error rs.
Proof.
  revert s e. induction rs as [|r rs IH]; intros s e; simpl.
  - intros [= _ ->]. by rewrite app_nil_r.
  - destruct (fanIn r s e) as [[s1 e1]|] eqn:Hr; [|done].
    intros ->%IH. apply fanIn_errors in Hr as ->.
    rewrite <-app_assoc. by destruct (FetchResult.Error r).
Qed.

Lemma drain_well_typed rs s e :
  Forall well_typed rs → is_Some (drain rs s e).
Proof.
  intros Hrs. revert s e. induction Hrs as [|r rs Hr _ IH]; intros s e; simpl.
  - by eexists.
  - destruct (Hr s e) as [[s1 e1] ->]. apply IH.
Qed.

(** An outcome for another key leaves a field alone. *)

Lemma fanIn_other_price res s e s' e' :
  fanIn res s e = Some (s', e') → FetchResult.Key res ≠ "price" →
  Price s' = Price s ∧ PriceStatus s' = PriceStatus s.
Proof.
  unfold fanIn. intros H ?. repeat case_decide; simplify_option_eq; done.
Qed.

Lemma fanIn_other_stock res s e s' e' :
  fanIn res s e = Some (s', e') → FetchResult.Key res ≠ "stock" →
  Stock s' = Stock s ∧ StockStatus s' = StockStatus s.
Proof.
  unfold fanIn. intros H ?. repeat case_decide; simplify_option_eq; done.
Qed.

Lemma fanIn_other_promotion res s e s' e' :
  fanIn res s e = Some (s', e') → FetchResult.Key res ≠ "promotion" →
  Promotion s' = Promotion s ∧ PromotionStatus s' = PromotionStatus s.
Proof.
  unfold fanIn. intros H ?. repeat case_decide; simplify_option_eq; done.
Qed.

Lemma drain_other_price rs s e s' e' :
  drain rs s e = Some (s', e') → "price" ∉ FetchResult.Key <$> rs →
  Price s' = Price s ∧ PriceStatus s' = PriceStatus s.
Proof.
  revert s e. induction rs as [|r rs IH]; intros s e; simpl.
  - by intros [= -> ->].
  - destruct (fanIn r s e) as [[s1 e1]|] eqn:Hr; [|done].
    intros Hd [Hk Hrs]%not_elem_of_cons.
    destruct (IH _ _ Hd Hrs) as [-> ->].
    by eapply fanIn_other_price.
Qed.

Lemma drain_other_stock rs s e s' e' :
  drain rs s e = Some (s', e') → "stock" ∉ FetchResult.Key <$> rs →
  Stock s' = Stock s ∧ StockStatus s' = StockStatus s.
Proof.
  revert s e. induction rs as [|r rs IH]; intros s e; simpl.
  - by intros [= -> ->].
  - destruct (fanIn r s e) as [[s1 e1]|] eqn:Hr; [|done].
    intros Hd [Hk Hrs]%not_elem_of_cons.
    destruct (IH _ _ Hd Hrs) as [-> ->].
    by eapply fanIn_other_stock.
Qed.

Lemma drain_other_promotion rs s e s' e' :
  drain rs s e = Some (s', e') → "promotion" ∉ FetchResult.Key <$> rs →
  Promotion s' = Promotion s ∧ PromotionStatus s' = PromotionStatus s.
Proof.
  revert s e. induction rs as [|r rs IH]; intros s e; simpl.
  - by intros [= -> ->].
  - destruct (fanIn r s e) as [[s1 e1]|] eqn:Hr; [|done].
    intros Hd [Hk Hrs]%not_elem_of_cons.
    destruct (IH _ _ Hd Hrs) as [-> ->].
    by eapply fanIn_other_promotion.
Qed.

(** The outcome for a key decides its field. *)

Lemma fanIn_price res s e s' e' :
  fanIn res s e = Some (s', e') → FetchResult.Key res = "price" →
  price_field (Some res) = Some (Price s', PriceStatus s').
Proof.
  unfold fanIn, price_field. intros H ?.
  repeat case_decide; simplify_option_eq; done.
Qed.

Lemma fanIn_stock res s e s' e' :
  fanIn res s e = Some (s', e') → FetchResult.Key res = "stock" →
  stock_field (Some res) = Some (Stock s', StockStatus s').
Proof.
  unfold fanIn, stock_field. intros H Hk. rewrite Hk in H.
  repeat case_decide; simplify_option_eq; done.
Qed.

Lemma fanIn_promotion res s e s' e' :
  fanIn res s e = Some (s', e') → FetchResult.Key res = "promotion" →
  promotion_field (Some res) = Some (Promotion s', PromotionStatus s').
Proof.
  unfold fanIn, promotion_field. intros H Hk. rewrite Hk in H.
  repeat case_decide; simplify_option_eq; done.
Qed.

Lemma drain_price rs r s e s' e' :
  NoDup (FetchResult.Key <$> rs) → r ∈ rs → FetchResult.Key r = "price" →
  drain rs s e = Some (s', e') →
  price_field (Some r) = Some (Price s', PriceStatus s').
Proof.
  intros Hnd Hin Hk. revert s e.
  induction rs as [|r0 rs IH]; intros s e; simpl; [by apply elem_of_nil in Hin|].
  rewrite fmap_cons in Hnd. apply NoDup_cons in Hnd as [Hr0 Hnd].
  destruct (fanIn r0 s e) as [[s1 e1]|] eqn:H0; [|done]. intros Hd.
  apply elem_of_cons in Hin as [->|Hin]; [|by eapply IH].
  rewrite Hk in Hr0. destruct (drain_other_price _ _ _ _ _ Hd Hr0) as [-> ->].
  by eapply fanIn_price.
Qed.

Lemma drain_stock rs r s e s' e' :
  NoDup (FetchResult.Key <$> rs) → r ∈ rs → FetchResult.Key r = "stock" →
  drain rs s e = Some (s', e') →
  stock_field (Some r) = Some (Stock s', StockStatus s').
Proof.
  intros Hnd Hin Hk. revert s e.
  induction rs as [|r0 rs IH]; intros s e; simpl; [by apply elem_of_nil in Hin|].
  rewrite fmap_cons in Hnd. apply NoDup_cons in Hnd as [Hr0 Hnd].
  destruct (fanIn r0 s e) as [[s1 e1]|] eqn:H0; [|done]. intros Hd.
  apply elem_of_cons in Hin as [->|Hin]; [|by eapply IH].
  rewrite Hk in Hr0. destruct (drain_other_stock _ _ _ _ _ Hd Hr0) as [-> ->].
  by eapply fanIn_stock.
Qed.

Lemma drain_promotion rs r s e s' e' :
  NoDup (FetchResult.Key <$> rs) → r ∈ rs → FetchResult.Key r = "promotion" →
  drain rs s e = Some (s', e') →
  promotion_field (Some r) = Some (Promotion s', PromotionStatus s').
Proof.
  intros Hnd Hin Hk. revert s e.
  induction rs as [|r0 rs IH]; intros s e; simpl; [by apply elem_of_nil in Hin|].
  rewrite fmap_cons in Hnd. apply NoDup_cons in Hnd as [Hr0 Hnd].
  destruct (fanIn r0 s e) as [[s1 e1]|] eqn:H0; [|done]. intros Hd.
  apply elem_of_cons in Hin as [->|Hin]; [|by eapply IH].
  rewrite Hk in Hr0. destruct (drain_other_promotion _ _ _ _ _ Hd Hr0) as [-> ->].
  by eapply fanIn_promotion.
Qed.

End FanIn.

(** ** The transition system *)

Lemma size_add_fresh (k : string) (X : gset string) :
  k ∉ X → size ({[k]} ∪ X) = S (size X).
Proof.
  intros Hk. rewrite size_union by set_solver. rewrite size_singleton. lia.
Qed.

Lemma choose_missing (X Y : gset string) :
  X ⊆ Y → X ≠ Y → ∃ k, k ∈ Y ∧ k ∉ X.
Proof.
  intros Hsub Hne. destruct (set_choose_L (Y ∖ X)) as [k Hk].
  - intros Hempty. apply Hne. apply set_eq. intros k. split; [by apply Hsub|].
    intros Hk. destruct (decide (k ∈ X)) as [|Hn]; [done|].
    assert (k ∈ Y ∖ X) as Hd by (by apply elem_of_difference).
    rewrite Hempty in Hd. by apply not_elem_of_empty in Hd.
  - apply elem_of_difference in Hk. by exists k.
Qed.

Lemma length_omap_le {A B} (f : A → option B) (l : list A) :
  (length (omap f l) ≤ length l)%nat.
Proof.
  induction l as [|x l IH]; csimpl; [done|].
  destruct (f x); csimpl; lia.
Qed.

Lemma executeService_key ctx tm key productID fn r :
  executeService ctx tm key productID fn = Some r → FetchResult.Key r = key.
Proof.
  unfold executeService. intros H.
  destruct (fn ctx tm productID) as [[v [err|]]|]; [|by simplify_eq..].
  destruct (is_DeadlineExceeded err); by simplify_eq.
Qed.

(** Reduce the projections of a [State] and nothing else. *)
Ltac state_simpl :=
  unfold drained_so_far in *;
  cbn [pc joiner launched sent finished wg buf closed drained panic] in *.

(** [set_solver], on goals about sets of keys only. *)
Ltac solve_sets :=
  lazymatch goal with
  | |- _ ⊆ _ => set_solver
  | |- _ → _ = dom _ => set_solver
  | |- _ ∈ _ => set_solver
  | |- _ ∉ _ => set_solver
  end.

Section Engine.

Variable reg : gmap string ServiceFn.
Variable env : string → Timing.
Variable productID : string.

#[local] Abbreviation outcome := (outcome reg env productID).
#[local] Abbreviation Inv := (Inv reg env productID).
#[local] Abbreviation step := (step reg env productID).
#[local] Abbreviation exec := (exec reg env productID).
#[local] Abbreviation fuel := (fuel reg).

Lemma outcome_key k r : outcome k = Some r → FetchResult.Key r = k.
Proof.
  unfold aggregator.outcome. intros H.
  destruct (reg !! k) as [fn|]; simpl in H; [|done].
  by eapply executeService_key.
Qed.

Lemma outcome_dom k r : outcome k = Some r → k ∈ dom reg.
Proof.
  unfold aggregator.outcome. intros H. apply elem_of_dom.
  destruct (reg !! k); [by eexists | done].
Qed.

Lemma Inv_init : Inv (init reg).
Proof.
  split; unfold init; state_simpl; try done; try set_solver.
  rewrite size_empty. lia.
Qed.

Lemma step_Inv a σ σ' : step a σ = Some σ' → Inv σ → Inv σ'.
Proof.
  unfold aggregator.step. destruct (panic σ) as [p|] eqn:Hp; [done|].
  intros Hstep [Hfin Hsent Hlaun Hwg Hfan Hall Hcl Hcla Hch Hsome Hpc Hpan].
  destruct a as [k| |k|k| | |].
  - (* GoWorker *)
    unfold goWorker in Hstep. destruct (pc σ) eqn:Hpcσ; try done.
    case_decide as Hk; [|done]. simplify_eq.
    split; state_simpl; try done; try (clear Hch Hsome Hpc Hpan; solve_sets).
  - (* GoJoin *)
    unfold goJoin in Hstep. destruct (pc σ) eqn:Hpcσ; try done.
    case_decide as Hk; [|done]. simplify_eq.
    split; state_simpl; try done.
    + split; [intros Hc%Hcl | done]. destruct Hfan as [_ Hfan].
      rewrite Hfan in Hc by done. done.
    + intros _. by rewrite Hpc.
  - (* WorkerSend *)
    unfold workerSend in Hstep. case_decide as Hk; [|done].
    destruct Hk as [Hkl Hks].
    destruct (outcome k) as [r|] eqn:Hr; [|done].
    destruct (closed σ) eqn:Hclosed.
    { specialize (Hcla eq_refl). clear Hch Hsome Hpc Hpan. set_solver. }
    case_decide as Hroom; [|done]. simplify_eq.
    split; state_simpl; try done; try (clear Hch Hsome Hpc Hpan; solve_sets).
    + rewrite elements_union_singleton by done. csimpl. rewrite Hr.
      rewrite app_assoc, <-Hch. symmetry. apply Permutation_cons_append.
    + intros k' [->%elem_of_singleton|?]%elem_of_union; [by eexists|by apply Hsome].
    + destruct (pc σ); [done|done|]. by destruct Hpc as (_ & _ & [=] & _).
  - (* WorkerDone *)
    unfold workerDone in Hstep. case_decide as Hk; [|done].
    destruct Hk as [Hks Hkf].
    assert (size (finished σ) < size reg)%nat as Hlt.
    { rewrite <-(size_dom (D:=gset string)). apply subset_size.
      clear Hch Hsome Hpc Hpan. set_solver. }
    case_decide as Hneg; [lia|]. simplify_eq.
    split; state_simpl; try done; try (clear Hch Hsome Hpc Hpan; solve_sets).
    rewrite size_add_fresh by done. lia.
  - (* JoinClose *)
    unfold joinClose in Hstep. destruct (joiner σ) eqn:Hj; try done.
    case_decide as Hz; [|done]. simplify_eq.
    split; state_simpl; try done.
    + rewrite <-Hfan. split; [done|]. by intros [=].
    + intros _. apply set_subseteq_size_eq; [clear Hch Hsome Hpc Hpan; set_solver|].
      rewrite size_dom. lia.
    + destruct (pc σ) eqn:Hpcσ; [done|done|].
      destruct Hpc as (_ & _ & Hc & _). apply Hcl in Hc. congruence.
  - (* MainRecv *)
    unfold mainRecv in Hstep.
    destruct (pc σ) as [|s e|] eqn:Hpcσ; try done.
    destruct (buf σ) as [|res rest] eqn:Hbuf; [done|].
    specialize (Hpc Hp).
    assert (drain (drained σ ++ [res]) (CartSummary_of productID) [] = fanIn res s e) as Hd.
    { rewrite drain_snoc. unfold drained_so_far in Hpc. by rewrite Hpc. }
    destruct (fanIn res s e) as [[s' e']|] eqn:Hres; simplify_eq;
      split; state_simpl; try done.
    + split; [by intros ?%Hfan | done].
    + intros _. by apply Hall.
    + by rewrite <-app_assoc.
    + intros p Hp'. congruence.
    + by rewrite <-app_assoc.
    + by intros p [= <-].
  - (* MainReturn *)
    unfold mainReturn in Hstep.
    destruct (pc σ) as [|s e|] eqn:Hpcσ; try done.
    destruct (buf σ) as [|res rest] eqn:Hbuf; [|done].
    destruct (closed σ) eqn:Hclosed; [|done]. simplify_eq.
    split; state_simpl; try done.
    + split; [by intros ?%Hfan | done].
    + intros _. by apply Hall.
    + split_and!; try done. eexists _, _. split; [by apply Hpc|done].
Qed.

Lemma exec_Inv sched σ σ' : exec sched σ = Some σ' → Inv σ → Inv σ'.
Proof.
  revert σ. induction sched as [|a sched IH]; intros σ; simpl.
  - by intros [= ->].
  - destruct (step a σ) as [σ1|] eqn:Hstep; [|done].
    intros Hexec HI. eapply IH; [done|]. by eapply step_Inv.
Qed.

Lemma run_Inv sched σ :
  FanOutAndAggregate reg env productID sched = Some σ → Inv σ.
Proof. intros H. eapply exec_Inv; [exact H | apply Inv_init]. Qed.

Lemma exec_app sched1 sched2 σ :
  exec (sched1 ++ sched2) σ =
    match exec sched1 σ with Some σ' => exec sched2 σ' | None => None end.
Proof.
  revert σ. induction sched1 as [|a sched1 IH]; intros σ; simpl; [done|].
  destruct (step a σ); [apply IH | done].
Qed.

(** *** Bounds that follow from the invariant *)

Lemma Inv_received σ :
  Inv σ → (length (drained σ) + length (buf σ) ≤ size (sent σ))%nat.
Proof.
  intros HI. rewrite <-length_app, (inv_chan _ _ _ _ HI).
  etrans; [apply length_omap_le|]. done.
Qed.

Lemma Inv_sizes σ :
  Inv σ →
  (size (finished σ) ≤ size (sent σ) ∧ size (sent σ) ≤ size (launched σ)
   ∧ size (launched σ) ≤ size reg)%nat.
Proof.
  intros HI. repeat split.
  - apply subseteq_size, HI.
  - apply subseteq_size, HI.
  - rewrite <-(size_dom (D:=gset string)). apply subseteq_size, HI.
Qed.

Lemma fresh_size (k : string) (X : gset string) :
  k ∈ dom reg → k ∉ X → X ⊆ dom reg → (size X < size reg)%nat.
Proof.
  intros. rewrite <-(size_dom (D:=gset string)). apply subset_size. set_solver.
Qed.

(** *** Every step uses up fuel *)

Lemma step_fuel a σ σ' :
  step a σ = Some σ' → Inv σ → (fuel σ' < fuel σ)%nat.
Proof.
  intros Hstep HI. pose proof (step_Inv _ _ _ Hstep HI) as HI'.
  pose proof (Inv_received _ HI) as Hrecv.
  pose proof (Inv_sizes _ HI) as (Hs1 & Hs2 & Hs3).
  pose proof (Inv_received _ HI') as Hrecv'.
  pose proof (Inv_sizes _ HI') as (Hs1' & Hs2' & Hs3').
  pose proof (inv_fanout _ _ _ _ HI) as Hfan.
  clear HI HI'. revert Hstep. unfold aggregator.step, spec.fuel.
  destruct (panic σ) as [p|] eqn:Hp; [done|].
  destruct a as [k| |k|k| | |].
  - unfold goWorker. destruct (pc σ) eqn:Hpcσ; try done.
    case_decide as Hk; [|done]. intros ?; simplify_eq.
    cbn [pc joiner launched sent finished wg buf closed drained panic] in *.
    rewrite Hp, ?Hpcσ. rewrite size_add_fresh in * by tauto. lia.
  - unfold goJoin. destruct (pc σ) eqn:Hpcσ; try done.
    case_decide as Hk; [|done]. intros ?; simplify_eq.
    cbn [pc joiner launched sent finished wg buf closed drained panic] in *.
    rewrite Hp, (proj2 Hfan eq_refl). lia.
  - unfold workerSend. case_decide as Hk; [|done].
    destruct (outcome k) as [r|]; [|done].
    destruct (closed σ).
    { intros ?; simplify_eq.
      cbn [pc joiner launched sent finished wg buf closed drained panic]. lia. }
    case_decide; [|done]. intros ?; simplify_eq.
    cbn [pc joiner launched sent finished wg buf closed drained panic] in *.
    rewrite Hp. rewrite size_add_fresh in * by tauto. lia.
  - unfold workerDone. case_decide as Hk; [|done].
    case_decide; intros ?; simplify_eq;
      cbn [pc joiner launched sent finished wg buf closed drained panic] in *;
      [lia|].
    rewrite Hp. rewrite size_add_fresh in * by tauto. lia.
  - unfold joinClose. destruct (joiner σ) eqn:Hj; try done.
    case_decide; [|done]. intros ?; simplify_eq.
    cbn [pc joiner launched sent finished wg buf closed drained panic] in *.
    rewrite Hp. lia.
  - unfold mainRecv. destruct (pc σ) eqn:Hpcσ; try done.
    destruct (buf σ) as [|res rest] eqn:Hbuf; [done|].
    destruct (fanIn _ _ _) as [[??]|]; intros ?; simplify_eq;
      cbn [pc joiner launched sent finished wg buf closed drained panic] in *;
      [|lia].
    rewrite Hp. rewrite length_app in *. simpl in *. lia.
  - unfold mainReturn. destruct (pc σ) eqn:Hpcσ; try done.
    destruct (buf σ); [|done]. destruct (closed σ); [|done].
    intros ?; simplify_eq.
    cbn [pc joiner launched sent finished wg buf closed drained panic] in *.
    rewrite Hp. lia.
Qed.

Lemma exec_fuel sched σ σ' :
  exec sched σ = Some σ' → Inv σ → (length sched + fuel σ' ≤ fuel σ)%nat.
Proof.
  revert σ. induction sched as [|a sched IH]; intros σ; simpl.
  - intros [= ->] _. lia.
  - destruct (step a σ) as [σ1|] eqn:Hstep; [|done].
    intros Hexec HI. pose proof (step_fuel _ _ _ Hstep HI).
    pose proof (IH _ Hexec (step_Inv _ _ _ Hstep HI)). lia.
Qed.

Lemma fuel_init : fuel (init reg) = (4 * size reg + 4)%nat.
Proof.
  unfold spec.fuel, init. state_simpl. rewrite size_empty. simpl. lia.
Qed.

(** *** No deadlock *)

Lemma progress σ :
  Inv σ → backends_return reg env productID → ¬ over σ →
  ∃ a σ', step a σ = Some σ'.
Proof.
  intros [Hfin Hsent Hlaun Hwg Hfan Hall Hcl Hcla Hch Hsome Hpc Hpan] Hret Hover.
  clear Hch Hsome Hpc Hpan. unfold aggregator.step.
  destruct (panic σ) as [p|] eqn:Hp; [destruct Hover; left; by eexists|].
  destruct (pc σ) as [|s e|s err] eqn:Hpcσ.
  - (* the fan-out loop *)
    destruct (decide (launched σ = dom reg)) as [Heq|Hne].
    + exists GoJoin. unfold goJoin. rewrite Hpcσ, decide_True by done. by eexists.
    + destruct (choose_missing _ _ Hlaun Hne) as (k & Hk1 & Hk2).
      exists (GoWorker k). unfold goWorker.
      rewrite Hpcσ, decide_True by done. by eexists.
  - (* the fan-in loop *)
    destruct (buf σ) as [|res rest] eqn:Hbuf.
    2:{ exists MainRecv. unfold mainRecv. rewrite Hpcσ, Hbuf.
        destruct (fanIn res s e) as [[??]|]; by eexists. }
    destruct (closed σ) eqn:Hclosed.
    { exists MainReturn. unfold mainReturn. rewrite Hpcσ, Hbuf, Hclosed. by eexists. }
    assert (joiner σ = JWaiting) as Hj.
    { destruct (joiner σ) eqn:Hjσ; [|done|].
      - by destruct Hfan as [Hfan _]; specialize (Hfan eq_refl).
      - by destruct Hcl as [_ Hcl]; specialize (Hcl eq_refl). }
    destruct (decide (wg σ = 0)) as [Hz|Hnz].
    { exists JoinClose. unfold joinClose. rewrite Hj, decide_True by done. by eexists. }
    assert (launched σ = dom reg) as Hlall by (by apply Hall).
    assert (finished σ ⊆ dom reg) as Hfsub by (clear Hret; set_solver).
    assert (finished σ ≠ dom reg) as Hfne.
    { intros Heq. apply Hnz. rewrite Hwg, Heq, size_dom. lia. }
    destruct (choose_missing _ _ Hfsub Hfne) as (k & Hk1 & Hk2).
    destruct (decide (k ∈ sent σ)) as [Hks|Hks].
    + exists (WorkerDone k). unfold workerDone.
      rewrite decide_True by done. case_decide; by eexists.
    + exists (WorkerSend k). unfold workerSend.
      rewrite decide_True by (by rewrite Hlall).
      destruct (Hret k Hk1) as [r ->]. rewrite Hclosed, Hbuf.
      rewrite decide_True; [by eexists|].
      simpl. eapply Nat.le_lt_trans; [apply Nat.le_0_l|].
      apply (fresh_size k (sent σ)); [done|done|].
      clear Hret. set_solver.
  - destruct Hover. right. by eexists _, _.
Qed.

(** *** Every run can be completed *)

Lemma completion_fuel n σ :
  (fuel σ ≤ n)%nat → Inv σ → backends_return reg env productID →
  ∃ sched σ', exec sched σ = Some σ' ∧ over σ'.
Proof.
  revert σ. induction n as [|n IH]; intros σ Hn HI Hret.
  - exists [], σ. split; [done|]. left.
    unfold spec.fuel in Hn. destruct (panic σ); [by eexists | lia].
  - destruct (panic σ) as [p|] eqn:Hp.
    { exists [], σ. split; [done|]. left. by eexists. }
    destruct (pc σ) as [|s e|s err] eqn:Hpcσ.
    3:{ exists [], σ. split; [done|]. right. by eexists _, _. }
    all: destruct (progress σ HI Hret) as (a & σ1 & Hstep);
      [intros [[? ?]|(? & ? & ?)]; congruence|];
      pose proof (step_fuel _ _ _ Hstep HI);
      destruct (IH σ1) as (sched & σ' & Hexec & Hover);
      [lia | by eapply step_Inv | done |];
      exists (a :: sched), σ'; simpl; rewrite Hstep; done.
Qed.

Lemma completion σ :
  Inv σ → backends_return reg env productID →
  ∃ sched σ', exec sched σ = Some σ' ∧ over σ'.
Proof. intros. by eapply completion_fuel. Qed.

(** *** What the loop has received *)

Lemma Inv_drained_outcome σ r :
  Inv σ → r ∈ drained σ ++ buf σ →
  ∃ k, k ∈ dom reg ∧ outcome k = Some r ∧ FetchResult.Key r = k.
Proof.
  intros HI Hr. rewrite (inv_chan _ _ _ _ HI) in Hr.
  apply list_elem_of_omap in Hr as (k & Hk%elem_of_elements & Hr).
  exists k. split_and!; [|done|by eapply outcome_key].
  pose proof (inv_sent _ _ _ _ HI). pose proof (inv_launched _ _ _ _ HI).
  set_solver.
Qed.

Lemma omap_outcome_keys (ks : list string) :
  Forall (λ k, is_Some (outcome k)) ks →
  FetchResult.Key <$> omap outcome ks = ks.
Proof.
  induction 1 as [|k ks [r Hr] _ IH]; csimpl; [done|].
  rewrite Hr. csimpl. rewrite IH. by rewrite (outcome_key _ _ Hr).
Qed.

Lemma Inv_keys σ :
  Inv σ → FetchResult.Key <$> (drained σ ++ buf σ) ≡ₚ elements (sent σ).
Proof.
  intros HI. rewrite (inv_chan _ _ _ _ HI). rewrite omap_outcome_keys; [done|].
  apply Forall_forall. intros k Hk%elem_of_elements. by eapply inv_some.
Qed.

Lemma Inv_NoDup σ :
  Inv σ → NoDup (FetchResult.Key <$> (drained σ ++ buf σ)).
Proof. intros HI. rewrite (Inv_keys _ HI). apply NoDup_elements. Qed.

Lemma Inv_no_panic σ :
  Inv σ → backends_well_typed reg env productID → panic σ = None.
Proof.
  intros HI Hwt. destruct (panic σ) as [p|] eqn:Hp; [|done].
  destruct (inv_panic _ _ _ _ HI p Hp) as [_ Hnone].
  assert (Forall well_typed (drained σ)) as Hall.
  { apply Forall_forall. intros r Hr.
    destruct (Inv_drained_outcome σ r HI) as (k & Hk & Hout & _).
    { apply elem_of_app. by left. }
    destruct (Hwt k Hk) as (r' & Hr' & Hwtr).
    rewrite Hout in Hr'. by injection Hr' as <-. }
  destruct (drain_well_typed _ (CartSummary_of productID) [] Hall) as [? Hsome].
  unfold drained_so_far in Hnone. congruence.
Qed.

Lemma well_typed_return :
  backends_well_typed reg env productID → backends_return reg env productID.
Proof. intros Hwt k Hk. destruct (Hwt k Hk) as (r & -> & _). by eexists. Qed.

(** *** The state in which the call returns *)

Lemma returned_all_sent σ summary err :
  Inv σ → pc σ = MReturned summary err → sent σ = dom reg.
Proof.
  intros HI Hpc. pose proof (inv_pc _ _ _ _ HI) as H. rewrite Hpc in H.
  destruct H as (_ & _ & Hclosed & _).
  pose proof (inv_close_all _ _ _ _ HI Hclosed).
  pose proof (inv_finished _ _ _ _ HI). pose proof (inv_sent _ _ _ _ HI).
  pose proof (inv_launched _ _ _ _ HI). set_solver.
Qed.

Lemma returned_drained σ summary err :
  Inv σ → pc σ = MReturned summary err →
  drained σ ≡ₚ outcomes reg env productID.
Proof.
  intros HI Hpc. pose proof (inv_pc _ _ _ _ HI) as H. rewrite Hpc in H.
  destruct H as (_ & Hbuf & _).
  pose proof (inv_chan _ _ _ _ HI) as Hch.
  rewrite Hbuf, app_nil_r, (returned_all_sent _ _ _ HI Hpc) in Hch. done.
Qed.

Lemma returned_backends σ summary err :
  Inv σ → pc σ = MReturned summary err → backends_return reg env productID.
Proof.
  intros HI Hpc k Hk. apply (inv_some _ _ _ _ HI).
  by rewrite (returned_all_sent _ _ _ HI Hpc).
Qed.

Lemma outcome_in_outcomes k r :
  outcome k = Some r → r ∈ outcomes reg env productID.
Proof.
  intros Hr. apply list_elem_of_omap. exists k. split; [|done].
  apply elem_of_elements. by eapply outcome_dom.
Qed.

Lemma returned_summary σ summary err :
  Inv σ → pc σ = MReturned summary err →
  err = None
  ∧ ProductID summary = productID
  ∧ TotalTimeMs summary = 0
  ∧ price_field (outcome "price") = Some (Price summary, PriceStatus summary)
  ∧ stock_field (outcome "stock") = Some (Stock summary, StockStatus summary)
  ∧ promotion_field (outcome "promotion")
    = Some (Promotion summary, PromotionStatus summary)
  ∧ ServiceErrors summary = omap FetchResult.Error (drained σ).
Proof.
  intros HI Hpc. pose proof (inv_pc _ _ _ _ HI) as H. rewrite Hpc in H.
  destruct H as (-> & Hbuf & _ & _ & s0 & e0 & Hd & ->).
  unfold drained_so_far in Hd.
  pose proof (returned_drained _ _ _ HI Hpc) as Hperm.
  pose proof (Inv_NoDup _ HI) as Hnd. rewrite Hbuf, app_nil_r in Hnd.
  destruct (drain_frame _ _ _ _ _ Hd) as (Hid & Htime & _).
  assert (∀ k, outcome k = None → k ∉ FetchResult.Key <$> drained σ) as Hnone.
  { intros k Hk (r & Hkr & Hr)%list_elem_of_fmap.
    destruct (Inv_drained_outcome σ r HI) as (k' & _ & Hout & Hk'); [set_solver|].
    congruence. }
  assert (∀ k r, outcome k = Some r → r ∈ drained σ ∧ FetchResult.Key r = k) as Hsome.
  { intros k r Hr. split; [|by eapply outcome_key].
    rewrite Hperm. by eapply outcome_in_outcomes. }
  unfold set_ServiceErrors.
  cbn [ProductID Price PriceStatus Stock StockStatus Promotion PromotionStatus
       TotalTimeMs ServiceErrors].
  split_and!; try done.
  - destruct (outcome "price") as [r|] eqn:Hr.
    + destruct (Hsome _ _ Hr). by eapply drain_price.
    + by destruct (drain_other_price _ _ _ _ _ Hd (Hnone _ Hr)) as [-> ->].
  - destruct (outcome "stock") as [r|] eqn:Hr.
    + destruct (Hsome _ _ Hr). by eapply drain_stock.
    + by destruct (drain_other_stock _ _ _ _ _ Hd (Hnone _ Hr)) as [-> ->].
  - destruct (outcome "promotion") as [r|] eqn:Hr.
    + destruct (Hsome _ _ Hr). by eapply drain_promotion.
    + by destruct (drain_other_promotion _ _ _ _ _ Hd (Hnone _ Hr)) as [-> ->].
  - by apply drain_errors in Hd as ->.
Qed.

(** *** What [Returns] means *)

Lemma Returns_summary summary err :
  Returns reg env productID summary err →
  err = None
  ∧ backends_return reg env productID
  ∧ ProductID summary = productID
  ∧ TotalTimeMs summary = 0
  ∧ price_field (outcome "price") = Some (Price summary, PriceStatus summary)
  ∧ stock_field (outcome "stock") = Some (Stock summary, StockStatus summary)
  ∧ promotion_field (outcome "promotion")
    = Some (Promotion summary, PromotionStatus summary)
  ∧ ServiceErrors summary ≡ₚ omap FetchResult.Error (outcomes reg env productID).
Proof.
  intros (sched & σ & Hrun & Hpc). pose proof (run_Inv _ _ Hrun) as HI.
  destruct (returned_summary _ _ _ HI Hpc) as (? & ? & ? & ? & ? & ? & ->).
  split_and!; try done.
  - by eapply returned_backends.
  - by rewrite (returned_drained _ _ _ HI Hpc).
Qed.

Lemma complete_to_return sched σ :
  FanOutAndAggregate reg env productID sched = Some σ →
  backends_well_typed reg env productID →
  ∃ sched' σ' summary,
    FanOutAndAggregate reg env productID (sched ++ sched') = Some σ'
    ∧ pc σ' = MReturned summary None.
Proof.
  intros Hrun Hwt. pose proof (run_Inv _ _ Hrun) as HI.
  destruct (completion σ HI (well_typed_return Hwt)) as (sched' & σ' & Hexec & Hover).
  assert (Inv σ') as HI' by by eapply exec_Inv.
  pose proof (Inv_no_panic _ HI' Hwt) as Hp.
  destruct Hover as [[p ?]|(summary & err & Hpc)]; [congruence|].
  destruct (returned_summary _ _ _ HI' Hpc) as (-> & _).
  exists sched', σ', summary. split; [|done].
  unfold FanOutAndAggregate in *. by rewrite exec_app, Hrun.
Qed.

Lemma Returns_exists :
  backends_well_typed reg env productID →
  ∃ summary, Returns reg env productID summary None.
Proof.
  intros Hwt.
  destruct (complete_to_return [] (init reg) eq_refl Hwt) as (sched & σ & s & ? & ?).
  exists s, sched, σ. done.
Qed.

End Engine.

(** ** [select] and the simulated backends *)

Lemma select_timer ctx tm delay :
  timer_at tm delay < deadline ctx → select ctx tm delay = TimerFired.
Proof.
  unfold select, woken_at, timer_at. intros H.
  rewrite bool_decide_true by lia. by rewrite bool_decide_false by lia.
Qed.

Lemma select_deadline ctx tm delay :
  deadline ctx < timer_at tm delay → 0 < delay → select ctx tm delay = CtxDone.
Proof.
  unfold select, woken_at, timer_at. intros H Hd.
  by rewrite bool_decide_false by lia.
Qed.

Lemma woken_at_bound ctx tm delay :
  woken_at ctx tm delay ≤ Z.max (started tm) (deadline ctx).
Proof. unfold woken_at. lia. Qed.

Lemma simulatedCall_cases ctx tm delay productID fail value :
  (select ctx tm delay = TimerFired ∧ fail = false
   ∧ simulatedCall ctx tm delay productID fail value = (value, None))
  ∨ (select ctx tm delay = TimerFired ∧ fail = true
     ∧ simulatedCall ctx tm delay productID fail value
       = (VNil, Some (Errorf "backend server responded with 503")))
  ∨ (select ctx tm delay = CtxDone
     ∧ simulatedCall ctx tm delay productID fail value
       = (VNil, Some DeadlineExceeded)).
Proof.
  unfold simulatedCall. destruct (select ctx tm delay), fail; naive_solver.
Qed.

(** A backend written with [simulatedCall]. *)
Lemma executeService_simulated ctx tm key productID fn delay fail value r :
  fn ctx tm productID = Some (simulatedCall ctx tm delay productID fail value) →
  executeService ctx tm key productID fn = Some r →
  FetchResult.Key r = key
  ∧ ((select ctx tm delay = TimerFired ∧ fail = false
      ∧ FetchResult.Value r = value
      ∧ FetchResult.Status r = StatusSuccess ∧ FetchResult.Error r = None)
     ∨ (select ctx tm delay = TimerFired ∧ fail = true
        ∧ FetchResult.Status r = StatusError
        ∧ FetchResult.Error r = Some
            {| ServiceKey := key; Message := "External service call failed";
               Timeout := false;
               Err := Errorf "backend server responded with 503" |})
     ∨ (select ctx tm delay = CtxDone
        ∧ FetchResult.Status r = StatusTimeout
        ∧ FetchResult.Error r = Some
            {| ServiceKey := key;
               Message := "Service execution exceeded the global aggregation timeout";
               Timeout := true;
               Err := DeadlineExceeded |})).
Proof.
  unfold executeService. intros ->.
  destruct (simulatedCall_cases ctx tm delay productID fail value)
    as [(? & ? & ->)|[(? & ? & ->)|(? & ->)]]; simpl; intros; simplify_eq; naive_solver.
Qed.

Lemma ServiceMap_dom : dom ServiceMap = {["price"; "stock"; "promotion"]}.
Proof. unfold ServiceMap. rewrite !dom_insert_L, dom_empty_L. set_solver. Qed.

Lemma ServiceMap_size : size ServiceMap = 3%nat.
Proof. reflexivity. Qed.

Lemma ServiceMap_price : ServiceMap !! "price" = Some FetchPriceSimulates.
Proof. reflexivity. Qed.

Lemma ServiceMap_stock : ServiceMap !! "stock" = Some FetchInventorySimulates.
Proof. reflexivity. Qed.

Lemma ServiceMap_promotion : ServiceMap !! "promotion" = Some FetchPromotionsSimulates.
Proof. reflexivity. Qed.

Lemma executeService_returns ctx tm key productID fn x :
  fn ctx tm productID = Some x →
  ∃ r, executeService ctx tm key productID fn = Some r.
Proof.
  unfold executeService. intros ->. destruct x as [v [err|]]; [|by eexists].
  destruct (is_DeadlineExceeded err); by eexists.
Qed.

Lemma FetchPriceSimulates_simulated : simulated FetchPriceSimulates.
Proof. by exists price_delay, false, (VFloat64 price_49_99). Qed.

Lemma FetchInventorySimulates_simulated : simulated FetchInventorySimulates.
Proof. by exists (λ _, 400 * Millisecond), false, (VInt 120). Qed.

Lemma FetchPromotionsSimulates_simulated : simulated FetchPromotionsSimulates.
Proof.
  by exists (λ _, 50 * Millisecond), false, (VString "Buy 1 Get 1 Half Off!").
Qed.

Lemma ServiceMap_lookup key fn :
  ServiceMap !! key = Some fn →
  (key = "price" ∧ fn = FetchPriceSimulates)
  ∨ (key = "stock" ∧ fn = FetchInventorySimulates)
  ∨ (key = "promotion" ∧ fn = FetchPromotionsSimulates).
Proof.
  unfold ServiceMap. intros H.
  repeat (apply lookup_insert_Some in H as [[<- <-]|[_ H]]; [naive_solver|]).
  by rewrite lookup_empty in H.
Qed.

Lemma ServiceMap_simulated key fn :
  ServiceMap !! key = Some fn → simulated fn.
Proof.
  intros [[_ ->]|[[_ ->]|[_ ->]]]%ServiceMap_lookup.
  - apply FetchPriceSimulates_simulated.
  - apply FetchInventorySimulates_simulated.
  - apply FetchPromotionsSimulates_simulated.
Qed.

(** A simulated backend always returns: the timer of its [select] fires
    if nothing else does. *)
Lemma simulated_backends_return (reg : gmap string ServiceFn) env productID :
  (∀ key fn, reg !! key = Some fn → simulated fn) →
  backends_return reg env productID.
Proof.
  intros Hsim key [fn Hfn]%elem_of_dom.
  destruct (Hsim _ _ Hfn) as (delay & fail & value & Hcall).
  unfold outcome. rewrite Hfn. simpl.
  destruct (executeService_returns ctx (env key) key productID fn _ (Hcall _ _ _))
    as [r ->].
  by eexists.
Qed.

(** The outcome of each shipped backend. *)

Lemma outcome_price env productID :
  ∃ r, outcome ServiceMap env productID "price" = Some r
  ∧ FetchResult.Key r = "price"
  ∧ ((select ctx (env "price") (price_delay productID) = TimerFired
      ∧ FetchResult.Value r = VFloat64 price_49_99
      ∧ FetchResult.Status r = StatusSuccess ∧ FetchResult.Error r = None)
     ∨ (select ctx (env "price") (price_delay productID) = CtxDone
        ∧ FetchResult.Status r = StatusTimeout
        ∧ FetchResult.Error r = Some price_timeout_error)).
Proof.
  unfold outcome. rewrite ServiceMap_price. simpl.
  destruct (executeService_returns ctx (env "price") "price" productID
              FetchPriceSimulates _ eq_refl) as [r Hr].
  exists r. split; [done|].
  destruct (executeService_simulated _ _ _ _ _ (price_delay productID) false
              (VFloat64 price_49_99) r eq_refl Hr) as [? H].
  split; [done|]. naive_solver.
Qed.

Lemma outcome_stock env productID :
  ∃ r, outcome ServiceMap env productID "stock" = Some r
  ∧ FetchResult.Key r = "stock"
  ∧ ((select ctx (env "stock") (400 * Millisecond) = TimerFired
      ∧ FetchResult.Value r = VInt 120
      ∧ FetchResult.Status r = StatusSuccess ∧ FetchResult.Error r = None)
     ∨ (select ctx (env "stock") (400 * Millisecond) = CtxDone
        ∧ FetchResult.Status r = StatusTimeout
        ∧ ∃ e, FetchResult.Error r = Some e ∧ Timeout e = true)).
Proof.
  unfold outcome. rewrite ServiceMap_stock. simpl.
  destruct (executeService_returns ctx (env "stock") "stock" productID
              FetchInventorySimulates _ eq_refl) as [r Hr].
  exists r. split; [done|].
  destruct (executeService_simulated _ _ _ _ _ (400 * Millisecond) false
              (VInt 120) r eq_refl Hr) as [? H].
  split; [done|]. naive_solver.
Qed.

Lemma outcome_promotion env productID :
  ∃ r, outcome ServiceMap env productID "promotion" = Some r
  ∧ FetchResult.Key r = "promotion"
  ∧ ((select ctx (env "promotion") (50 * Millisecond) = TimerFired
      ∧ FetchResult.Value r = VString "Buy 1 Get 1 Half Off!"
      ∧ FetchResult.Status r = StatusSuccess ∧ FetchResult.Error r = None)
     ∨ (select ctx (env "promotion") (50 * Millisecond) = CtxDone
        ∧ FetchResult.Status r = StatusTimeout
        ∧ ∃ e, FetchResult.Error r = Some e ∧ Timeout e = true)).
Proof.
  unfold outcome. rewrite ServiceMap_promotion. simpl.
  destruct (executeService_returns ctx (env "promotion") "promotion" productID
              FetchPromotionsSimulates _ eq_refl) as [r Hr].
  exists r. split; [done|].
  destruct (executeService_simulated _ _ _ _ _ (50 * Millisecond) false
              (VString "Buy 1 Get 1 Half Off!") r eq_refl Hr) as [? H].
  split; [done|]. naive_solver.
Qed.

Lemma well_typed_failed r :
  FetchResult.Status r ≠ StatusSuccess → well_typed r.
Proof.
  intros Hr s e. unfold fanIn.
  repeat case_decide; first [done | by eexists].
Qed.

Lemma ServiceMap_well_typed env productID :
  backends_well_typed ServiceMap env productID.
Proof.
  intros key Hkey. rewrite ServiceMap_dom in Hkey.
  assert (key = "price" ∨ key = "stock" ∨ key = "promotion") as Hcase
    by set_solver.
  destruct Hcase as [-> | [-> | ->]].
  - destruct (outcome_price env productID) as (r & Hr & Hk & H).
    exists r. split; [done|].
    destruct H as [(_ & Hv & Hs & _)|(_ & Hs & _)].
    + intros s e. unfold fanIn. rewrite Hk, Hs, Hv. simpl.
      destruct (FetchResult.Error r); by eexists.
    + apply well_typed_failed. by rewrite Hs.
  - destruct (outcome_stock env productID) as (r & Hr & Hk & H).
    exists r. split; [done|].
    destruct H as [(_ & Hv & Hs & _)|(_ & Hs & _)].
    + intros s e. unfold fanIn. rewrite Hk, Hs, Hv. simpl.
      destruct (FetchResult.Error r); by eexists.
    + apply well_typed_failed. by rewrite Hs.
  - destruct (outcome_promotion env productID) as (r & Hr & Hk & H).
    exists r. split; [done|].
    destruct H as [(_ & Hv & Hs & _)|(_ & Hs & _)].
    + intros s e. unfold fanIn. rewrite Hk, Hs, Hv. simpl.
      destruct (FetchResult.Error r); by eexists.
    + apply well_typed_failed. by rewrite Hs.
Qed.

Lemma executeService_status ctx tm key productID fn r :
  executeService ctx tm key productID fn = Some r →
  (FetchResult.Status r = StatusSuccess ∧ FetchResult.Error r = None)
  ∨ ((FetchResult.Status r = StatusTimeout ∨ FetchResult.Status r = StatusError)
     ∧ is_Some (FetchResult.Error r)).
Proof.
  unfold executeService. intros H.
  destruct (fn ctx tm productID) as [[v [err|]]|]; [| |done].
  - destruct (is_DeadlineExceeded err); simplify_eq; simpl; right; eauto.
  - simplify_eq. by left.
Qed.

Lemma outcome_status reg env productID key r :
  outcome reg env productID key = Some r →
  (FetchResult.Status r = StatusSuccess ∧ FetchResult.Error r = None)
  ∨ ((FetchResult.Status r = StatusTimeout ∨ FetchResult.Status r = StatusError)
     ∧ is_Some (FetchResult.Error r)).
Proof.
  unfold outcome. destruct (reg !! key) as [fn|]; simpl; [|done].
  apply executeService_status.
Qed.

Lemma Returns_error_listed reg env productID summary err key r e :
  Returns reg env productID summary err →
  outcome reg env productID key = Some r → FetchResult.Error r = Some e →
  e ∈ ServiceErrors summary.
Proof.
  intros (_ & _ & _ & _ & _ & _ & _ & ->)%Returns_summary Hr He.
  apply list_elem_of_omap. exists r. split; [|done].
  by eapply outcome_in_outcomes.
Qed.

(** * The claims *)

(** C1. Fallback policy.  In every round that returns, whatever the
    registry, for each of the keys "price", "stock" and "promotion" under
    which a worker produced an outcome: if the outcome's status is SUCCESS,
    the Summary field holds the produced value with status SUCCESS; if it is
    TIMEOUT or ERROR, the field holds its fallback constant (0.00, 0,
    "No promotions available") with status FALLBACK, and the outcome's
    ServiceError is in the Summary's error list. *)
Theorem fallback_policy reg env productID summary err key r :
  Returns reg env productID summary err →
  outcome reg env productID key = Some r →
  (key = "price" →
     (FetchResult.Status r = StatusSuccess →
        FetchResult.Value r = VFloat64 (Price summary)
        ∧ PriceStatus summary = StatusSuccess)
     ∧ (FetchResult.Status r = StatusTimeout ∨ FetchResult.Status r = StatusError →
        Price summary = 0%float ∧ PriceStatus summary = StatusFallback
        ∧ ∃ e, FetchResult.Error r = Some e ∧ e ∈ ServiceErrors summary))
  ∧ (key = "stock" →
     (FetchResult.Status r = StatusSuccess →
        FetchResult.Value r = VInt (Stock summary)
        ∧ StockStatus summary = StatusSuccess)
     ∧ (FetchResult.Status r = StatusTimeout ∨ FetchResult.Status r = StatusError →
        Stock summary = 0 ∧ StockStatus summary = StatusFallback
        ∧ ∃ e, FetchResult.Error r = Some e ∧ e ∈ ServiceErrors summary))
  ∧ (key = "promotion" →
     (FetchResult.Status r = StatusSuccess →
        FetchResult.Value r = VString (Promotion summary)
        ∧ PromotionStatus summary = StatusSuccess)
     ∧ (FetchResult.Status r = StatusTimeout ∨ FetchResult.Status r = StatusError →
        Promotion summary = "No promotions available"
        ∧ PromotionStatus summary = StatusFallback
        ∧ ∃ e, FetchResult.Error r = Some e ∧ e ∈ ServiceErrors summary)).
Proof.
  intros Hret Hr.
  pose proof (Returns_summary _ _ _ _ _ Hret)
    as (_ & _ & _ & _ & Hprice & Hstock & Hpromo & _).
  assert (FetchResult.Status r = StatusTimeout ∨ FetchResult.Status r = StatusError →
          FetchResult.Status r ≠ StatusSuccess
          ∧ ∃ e, FetchResult.Error r = Some e ∧ e ∈ ServiceErrors summary) as Hfail.
  { intros Hst. split; [by destruct Hst as [-> | ->]|].
    destruct (outcome_status _ _ _ _ _ Hr) as [[Hs _]|[_ [e He]]].
    - by destruct Hst as [Hst|Hst]; rewrite Hst in Hs.
    - exists e. split; [done|]. by eapply Returns_error_listed. }
  split_and!; intros ->; rewrite Hr in *; (split; [intros Hs | intros [Hne He]%Hfail]).
  - unfold price_field in Hprice. rewrite decide_True in Hprice by done.
    destruct (FetchResult.Value r); by simplify_eq/=.
  - unfold price_field in Hprice. rewrite decide_False in Hprice by done.
    by simplify_eq.
  - unfold stock_field in Hstock. rewrite decide_True in Hstock by done.
    destruct (FetchResult.Value r); by simplify_eq/=.
  - unfold stock_field in Hstock. rewrite decide_False in Hstock by done.
    by simplify_eq.
  - unfold promotion_field in Hpromo. rewrite decide_True in Hpromo by done.
    destruct (FetchResult.Value r); by simplify_eq/=.
  - unfold promotion_field in Hpromo. rewrite decide_False in Hpromo by done.
    by simplify_eq.
Qed.

Lemma run_returned reg env productID sched summary err :
  pc <$> FanOutAndAggregate reg env productID sched
  = Some (MReturned summary err) →
  ∃ σ, FanOutAndAggregate reg env productID sched = Some σ
       ∧ pc σ = MReturned summary err.
Proof.
  destruct (FanOutAndAggregate reg env productID sched) as [σ|]; [|done].
  intros [= H]. by exists σ.
Qed.

Lemma interleaved_run :
  ∃ σ, FanOutAndAggregate ServiceMap prompt "SKU-1" interleaved = Some σ
       ∧ pc σ = MReturned (all_success "SKU-1") None.
Proof. apply run_returned. vm_compute. reflexivity. Qed.

Lemma interleaved_all_success :
  Returns ServiceMap prompt "SKU-1" (all_success "SKU-1") None.
Proof. exists interleaved. eexists. split; vm_compute; reflexivity. Qed.

Lemma interleaved_price_timed_out :
  Returns ServiceMap prompt "TEST-SKU-TIMEOUT"
    (price_timed_out "TEST-SKU-TIMEOUT") None.
Proof. exists interleaved. eexists. split; vm_compute; reflexivity. Qed.

Lemma fallback_policy_witness :
  Price (price_timed_out "TEST-SKU-TIMEOUT") = 0%float
  ∧ PriceStatus (price_timed_out "TEST-SKU-TIMEOUT") = StatusFallback
  ∧ ∃ e, FetchResult.Error price_timeout_outcome = Some e
         ∧ e ∈ ServiceErrors (price_timed_out "TEST-SKU-TIMEOUT").
Proof.
  destruct (fallback_policy ServiceMap prompt "TEST-SKU-TIMEOUT"
              (price_timed_out "TEST-SKU-TIMEOUT") None "price"
              price_timeout_outcome) as [H _].
  - exact interleaved_price_timed_out.
  - vm_compute. reflexivity.
  - apply H; [reflexivity | left; reflexivity].
Defined.

(** C2. Exactly-once outcomes.  For every registry, at every point of a
    round: the outcomes on the channel or already drained are exactly one
    per worker that has sent, each the outcome of the worker of its key,
    and the channel is closed only once every registered worker is
    finished.  When the call returns the channel is empty and the loop has
    drained exactly [size reg] outcomes, one per registered key, without
    duplicates.  The loop does terminate: when every backend returns a value
    of the type its key expects, the round can be run on from any point to a
    return. *)
Theorem exactly_once_outcomes reg env productID sched σ :
  FanOutAndAggregate reg env productID sched = Some σ →
  FetchResult.Key <$> (drained σ ++ buf σ) ≡ₚ elements (sent σ)
  ∧ (∀ r, r ∈ drained σ ++ buf σ →
       outcome reg env productID (FetchResult.Key r) = Some r)
  ∧ (closed σ = true → finished σ = dom reg)
  ∧ (∀ summary err, pc σ = MReturned summary err →
       buf σ = []
       ∧ length (drained σ) = size reg
       ∧ NoDup (FetchResult.Key <$> drained σ)
       ∧ FetchResult.Key <$> drained σ ≡ₚ elements (dom reg))
  ∧ (backends_well_typed reg env productID →
       ∃ sched' σ' summary,
         FanOutAndAggregate reg env productID (sched ++ sched') = Some σ'
         ∧ pc σ' = MReturned summary None).
Proof.
  intros Hrun. pose proof (run_Inv _ _ _ _ _ Hrun) as HI.
  split_and!.
  - apply (Inv_keys _ _ _ _ HI).
  - intros r Hr.
    destruct (Inv_drained_outcome _ _ _ _ _ HI Hr) as (k & _ & Hout & <-). done.
  - apply (inv_close_all _ _ _ _ HI).
  - intros summary err Hpc.
    pose proof (inv_pc _ _ _ _ HI) as H. rewrite Hpc in H.
    destruct H as (_ & Hbuf & _).
    pose proof (Inv_keys _ _ _ _ HI) as Hkeys.
    rewrite Hbuf, app_nil_r, (returned_all_sent _ _ _ _ _ _ HI Hpc) in Hkeys.
    split_and!; [done| |by rewrite Hkeys; apply NoDup_elements|done].
    rewrite <-(length_fmap FetchResult.Key), Hkeys.
    by rewrite <-(size_dom (D:=gset string)).
  - intros Hwt. by eapply complete_to_return.
Qed.

Lemma exactly_once_outcomes_witness :
  ∃ σ, FanOutAndAggregate ServiceMap prompt "SKU-1" interleaved = Some σ
       ∧ length (drained σ) = size ServiceMap
       ∧ FetchResult.Key <$> drained σ ≡ₚ elements (dom ServiceMap).
Proof.
  destruct interleaved_run as (σ & Hrun & Hpc).
  exists σ. split; [exact Hrun|].
  destruct (exactly_once_outcomes ServiceMap prompt "SKU-1" interleaved σ Hrun)
    as (_ & _ & _ & Hret & _).
  destruct (Hret _ _ Hpc) as (_ & Hlen & _ & Hkeys).
  split; [exact Hlen | exact Hkeys].
Defined.

(** C3. Timeout flag soundness.  When the backend call of a worker returns
    an error, the worker's outcome carries a ServiceError for its key that
    holds that error; the Timeout flag of the ServiceError is true exactly
    when the error is context.DeadlineExceeded, in which case the outcome's
    status is TIMEOUT; for every other error the flag is false and the
    status is ERROR.  When the call returns no error the status is SUCCESS
    and there is no ServiceError, and every ServiceError in an outcome comes
    from an error of the call.  For a backend written with simulatedCall:
    when the deadline wins the select the outcome is TIMEOUT with the flag
    set; when the timer wins and the backend fails (the simulated 503) it is
    ERROR with the flag clear; when the timer wins and the backend does not
    fail it is SUCCESS. *)
Theorem timeout_flag_sound ctx tm key productID fn :
  (∀ value err,
     fn ctx tm productID = Some (value, Some err) →
     ∃ r se,
       executeService ctx tm key productID fn = Some r
       ∧ FetchResult.Error r = Some se
       ∧ Err se = err ∧ ServiceKey se = key
       ∧ (Timeout se = true ↔ err = DeadlineExceeded)
       ∧ (err = DeadlineExceeded →
            FetchResult.Status r = StatusTimeout ∧ Timeout se = true)
       ∧ (err ≠ DeadlineExceeded →
            FetchResult.Status r = StatusError ∧ Timeout se = false))
  ∧ (∀ value,
       fn ctx tm productID = Some (value, None) →
       ∃ r, executeService ctx tm key productID fn = Some r
            ∧ FetchResult.Status r = StatusSuccess
            ∧ FetchResult.Error r = None)
  ∧ (∀ r se,
       executeService ctx tm key productID fn = Some r →
       FetchResult.Error r = Some se →
       ∃ value err,
         fn ctx tm productID = Some (value, Some err)
         ∧ Err se = err
         ∧ (Timeout se = true ↔ err = DeadlineExceeded))
  ∧ (∀ delay fail v,
       fn ctx tm productID
       = Some (simulatedCall ctx tm delay productID fail v) →
       ∃ r,
         executeService ctx tm key productID fn = Some r
         ∧ match select ctx tm delay, fail with
           | CtxDone, _ =>
               FetchResult.Status r = StatusTimeout
               ∧ ∃ se, FetchResult.Error r = Some se
                       ∧ Timeout se = true ∧ Err se = DeadlineExceeded
           | TimerFired, true =>
               FetchResult.Status r = StatusError
               ∧ ∃ se, FetchResult.Error r = Some se
                       ∧ Timeout se = false
                       ∧ Err se = Errorf "backend server responded with 503"
           | TimerFired, false =>
               FetchResult.Status r = StatusSuccess
               ∧ FetchResult.Error r = None
           end).
Proof.
  split_and!.
  - intros value err Hfn. unfold executeService. rewrite Hfn.
    destruct err as [| |msg]; simpl; eexists _, _;
      (split; [reflexivity|]); simpl;
      (split; [reflexivity|]); simpl; split_and!; try done;
      try (by intros [? ?]); try (by split).
  - intros value Hfn. unfold executeService. rewrite Hfn.
    eexists. split; [reflexivity|]. done.
  - unfold executeService. intros r se Hr Hse.
    destruct (fn ctx tm productID) as [[value [err|]]|];
      [| by simplify_eq | done].
    exists value, err. split; [done|].
    destruct err as [| |msg]; simpl in Hr; simplify_eq; simpl in Hse;
      simplify_eq; simpl; by split.
  - intros delay fail v Hfn. unfold executeService. rewrite Hfn.
    unfold simulatedCall.
    destruct (select ctx tm delay), fail; simpl;
      eexists; (split; [reflexivity|]); simpl;
      first [done | by split; [|eexists]].
Qed.

Lemma timeout_flag_sound_witness :
  ∃ r se,
    executeService ctx (prompt "stock") "stock" "SKU-1" failing = Some r
    ∧ FetchResult.Error r = Some se
    ∧ FetchResult.Status r = StatusError ∧ Timeout se = false.
Proof.
  destruct (timeout_flag_sound ctx (prompt "stock") "stock" "SKU-1" failing)
    as (H & _).
  destruct (H VNil (Errorf "backend server responded with 503"))
    as (r & se & Hr & Hse & _ & _ & _ & _ & Hne).
  - vm_compute. reflexivity.
  - exists r, se. split; [exact Hr|]. split; [exact Hse|].
    apply Hne. discriminate.
Defined.

(** C4, as stated, fails.  The claim says that the call returns a non-nil
    error exactly when the registry is empty.  With the empty registry the
    call returns, and its error is nil. *)
Lemma empty_registry_returns_nil :
  ¬ (∀ summary err,
       Returns ∅ prompt "SKU-1" summary err →
       (err ≠ None ↔ (∅ : gmap string ServiceFn) = ∅)).
Proof.
  intros H. destruct (H (CartSummary_of "SKU-1") None) as [_ Hnil].
  - exists no_worker. eexists. split; vm_compute; reflexivity.
  - by apply Hnil.
Qed.

(** C4, amended.  FanOutAndAggregate never returns a non-nil error: for
    every registry, the empty one included, and every product id, the error
    of every return is nil, however many backends fail or time out, and the
    ServiceError of every failed outcome is in the Summary's error list.
    The call does return when every backend returns a value of the type
    its key expects. *)
Theorem no_fatal_error reg env productID :
  (backends_well_typed reg env productID →
     ∃ summary, Returns reg env productID summary None)
  ∧ ∀ summary err,
      Returns reg env productID summary err →
      err = None
      ∧ ∀ key r e,
          outcome reg env productID key = Some r →
          FetchResult.Error r = Some e →
          e ∈ ServiceErrors summary.
Proof.
  split; [apply Returns_exists|].
  intros summary err Hret. split.
  - by apply Returns_summary in Hret as (-> & _).
  - intros key r e. by apply (Returns_error_listed _ _ _ _ err).
Qed.

Lemma no_fatal_error_witness :
  (None : option error) = None
  ∧ price_timeout_error ∈ ServiceErrors (price_timed_out "TEST-SKU-TIMEOUT").
Proof.
  destruct (no_fatal_error ServiceMap prompt "TEST-SKU-TIMEOUT") as [_ H].
  destruct (H (price_timed_out "TEST-SKU-TIMEOUT") None
              interleaved_price_timed_out) as [Hnil Herrs].
  split; [exact Hnil|].
  apply (Herrs "price" price_timeout_outcome); vm_compute; reflexivity.
Defined.

(** ** The round on the clock *)

Lemma returns_at_woken ctx tm delay :
  timed.returns_at ctx tm delay = woken_at ctx tm delay.
Proof.
  unfold timed.returns_at, select, woken_at, timer_at.
  repeat case_bool_decide; try destruct (on_tie tm); lia.
Qed.

Lemma returns_at_bound ctx tm delay :
  timed.returns_at ctx tm delay ≤ Z.max (started tm) (deadline ctx).
Proof. rewrite returns_at_woken. apply woken_at_bound. Qed.

Lemma registry_simulated sims key fn :
  timed.registry sims !! key = Some fn → simulated fn.
Proof.
  unfold timed.registry. rewrite lookup_fmap.
  destruct (sims !! key) as [s|]; simpl; [|done]. intros [= <-].
  by exists (timed.sim_delay s), (timed.sim_fail s), (timed.sim_value s).
Qed.

Lemma registry_size sims : size (timed.registry sims) = size sims.
Proof. unfold timed.registry. apply map_size_fmap. Qed.

Lemma ServiceMap_shipped : ServiceMap = timed.registry timed.shipped.
Proof.
  unfold ServiceMap, timed.registry, timed.shipped.
  rewrite !fmap_insert, fmap_empty. reflexivity.
Qed.

Lemma step_launched reg env productID a σ σ' k :
  step reg env productID a σ = Some σ' →
  k ∈ launched σ' → k ∈ launched σ ∨ a = GoWorker k.
Proof.
  unfold step. destruct (panic σ); [done|].
  destruct a as [k'| |k'|k'| | |].
  - unfold goWorker. destruct (pc σ); try done.
    case_decide; [|done]. intros [= <-]. cbn [launched].
    intros [->%elem_of_singleton|?]%elem_of_union; auto.
  - unfold goJoin. destruct (pc σ); try done.
    case_decide; [|done]. intros [= <-]. cbn [launched]. auto.
  - unfold workerSend. case_decide; [|done].
    destruct (outcome reg env productID k'); [|done].
    destruct (closed σ); [intros [= <-]; cbn [launched]; auto|].
    case_decide; [|done]. intros [= <-]. cbn [launched]. auto.
  - unfold workerDone. case_decide; [|done].
    case_decide; intros [= <-]; cbn [launched]; auto.
  - unfold joinClose. destruct (joiner σ); try done.
    case_decide; [|done]. intros [= <-]. cbn [launched]. auto.
  - unfold mainRecv. destruct (pc σ); try done.
    destruct (buf σ); [done|].
    destruct (fanIn _ _ _) as [[??]|]; intros [= <-]; cbn [launched]; auto.
  - unfold mainReturn. destruct (pc σ); try done.
    destruct (buf σ); [|done]. destruct (closed σ); [|done].
    intros [= <-]. cbn [launched]. auto.
Qed.

Lemma step_send_launched reg env productID k σ σ' :
  step reg env productID (WorkerSend k) σ = Some σ' → k ∈ launched σ.
Proof.
  unfold step. destruct (panic σ); [done|]. unfold workerSend.
  case_decide as Hk; [|done]. intros _. apply Hk.
Qed.

Section Clock.

Variable sims : gmap string timed.Sim.
Variable env : string → Timing.
Variable productID : string.
Variable overhead : Z.
Hypothesis overhead_nonneg : 0 ≤ overhead.

#[local] Abbreviation tick := (timed.tick sims env productID overhead).
#[local] Abbreviation run := (timed.run sims env productID overhead).
#[local] Abbreviation started_by := (timed.started_by env overhead).

Lemma run_untimed ts τ τ' :
  run ts τ = Some τ' →
  exec (timed.registry sims) env productID ts.*2 (timed.state τ)
  = Some (timed.state τ').
Proof.
  revert τ. induction ts as [|[t a] ts IH]; intros τ; simpl.
  - by intros [= ->].
  - unfold timed.tick. simpl.
    destruct (step _ _ _ a (timed.state τ)) as [σ1|]; [|done].
    destruct (timed.on_time _ _ _ _ _ _ _); [|done].
    intros Hrun. by apply IH in Hrun.
Qed.

Lemma tick_bound t a τ τ' (i : Z) :
  tick (t, a) τ = Some τ' →
  started_by τ →
  0 ≤ i →
  timed.now τ ≤ aggregationTimeout + 2 * i * overhead →
  started_by τ'
  ∧ timed.now τ' ≤ aggregationTimeout + 2 * (i + 1) * overhead.
Proof.
  unfold timed.tick. simpl.
  destruct (step _ _ _ a (timed.state τ)) as [σ1|] eqn:Hstep; [|done].
  destruct (timed.on_time _ _ _ _ _ _ _) eqn:Htime; [|done].
  intros [= <-] Hstarted Hi Hnow. simpl.
  pose proof (Z.mul_nonneg_nonneg i overhead Hi overhead_nonneg) as Hio.
  assert (timed.now τ ≤ t
          ∧ t ≤ aggregationTimeout + 2 * (i + 1) * overhead
          ∧ ∀ k, a = GoWorker k → started (env k) ≤ t + overhead)
    as (Hmono & Hbound & Hgo).
  { unfold timed.on_time in Htime.
    destruct a as [k| |k|k| | |];
      try (apply bool_decide_eq_true in Htime;
           split_and!; [lia|lia|by intros k' [=]]).
    - apply bool_decide_eq_true in Htime.
      split_and!; [lia|lia|]. intros k' [= <-]. lia.
    - destruct (sims !! k) as [s|]; [|done].
      apply bool_decide_eq_true in Htime.
      pose proof (returns_at_bound ctx (env k) (timed.sim_delay s productID))
        as Hret.
      pose proof (Hstarted k (step_send_launched _ _ _ _ _ _ Hstep)) as Hk.
      assert (deadline ctx = aggregationTimeout) as Hd by reflexivity.
      rewrite Hd in Hret.
      split_and!; [lia|lia|by intros k' [=]]. }
  split; [|done]. intros k Hk. simpl in *.
  destruct (step_launched _ _ _ _ _ _ k Hstep Hk) as [Hold| ->].
  - pose proof (Hstarted k Hold). lia.
  - by apply Hgo.
Qed.

Lemma run_bound ts τ τ' (i : Z) :
  run ts τ = Some τ' →
  started_by τ →
  0 ≤ i →
  timed.now τ ≤ aggregationTimeout + 2 * i * overhead →
  timed.now τ'
  ≤ aggregationTimeout + 2 * (i + Z.of_nat (length ts)) * overhead.
Proof.
  revert τ i. induction ts as [|[t a] ts IH]; intros τ i; simpl.
  - intros [= ->] _ _ Hnow. lia.
  - destruct (tick (t, a) τ) as [τ1|] eqn:Htick; [|done].
    intros Hrun Hstarted Hi Hnow.
    destruct (tick_bound _ _ _ _ _ Htick Hstarted Hi Hnow) as [Hs1 Hn1].
    assert (0 ≤ i + 1) as Hi1 by lia.
    pose proof (IH _ _ Hrun Hs1 Hi1 Hn1). lia.
Qed.

End Clock.


Lemma interleaved_at_run :
  ∃ τ, timed.FanOutAndAggregate_at timed.shipped prompt "SKU-1" 50000
         interleaved_at = Some τ
       ∧ timed.now τ = 400035000.
Proof.
  destruct (timed.FanOutAndAggregate_at timed.shipped prompt "SKU-1" 50000
              interleaved_at) as [τ|] eqn:Hrun; [|by vm_compute in Hrun].
  exists τ. split; [done|].
  assert (timed.now <$> timed.FanOutAndAggregate_at timed.shipped prompt
                          "SKU-1" 50000 interleaved_at
          = Some 400035000) as H by (vm_compute; reflexivity).
  rewrite Hrun in H. by injection H.
Qed.


Lemma Returns_no_errors reg env productID summary err :
  (∀ key r, outcome reg env productID key = Some r → FetchResult.Error r = None) →
  Returns reg env productID summary err → ServiceErrors summary = [].
Proof.
  intros Hok (_ & _ & _ & _ & _ & _ & _ & Herrs)%Returns_summary.
  assert (omap FetchResult.Error (outcomes reg env productID) = []) as Hnil.
  { apply elem_of_nil_inv. intros e (r & Hr & He)%list_elem_of_omap.
    apply list_elem_of_omap in Hr as (k & _ & Hk).
    rewrite (Hok _ _ Hk) in He. done. }
  rewrite Hnil in Herrs. by apply Permutation_nil_r in Herrs.
Qed.

(** C6. All-success scenario.  With the shipped registry and the 450ms
    deadline, for a product id other than "TEST-SKU-TIMEOUT", when each
    worker reaches its select early enough for its timer (200ms, 400ms,
    50ms) to fire before the deadline, the call returns, and every Summary
    it returns has Price 49.99, Stock 120, Promotion "Buy 1 Get 1 Half
    Off!", the three statuses SUCCESS and an empty error list. *)
Theorem all_success_scenario env productID :
  productID ≠ "TEST-SKU-TIMEOUT" →
  started (env "price") + 200 * Millisecond < aggregationTimeout →
  started (env "stock") + 400 * Millisecond < aggregationTimeout →
  started (env "promotion") + 50 * Millisecond < aggregationTimeout →
  (∃ summary, Returns ServiceMap env productID summary None)
  ∧ ∀ summary err,
      Returns ServiceMap env productID summary err →
      err = None
      ∧ Price summary = price_49_99 ∧ PriceStatus summary = StatusSuccess
      ∧ Stock summary = 120 ∧ StockStatus summary = StatusSuccess
      ∧ Promotion summary = "Buy 1 Get 1 Half Off!"
      ∧ PromotionStatus summary = StatusSuccess
      ∧ ServiceErrors summary = [].
Proof.
  intros Hid Hprice Hstock Hpromo.
  split; [apply Returns_exists, ServiceMap_well_typed|].
  assert (select ctx (env "price") (price_delay productID) = TimerFired) as Hsp.
  { apply select_timer. unfold timer_at, price_delay, ctx, WithTimeout.
    rewrite decide_False by done. simpl. unfold aggregationTimeout, Millisecond in *. lia. }
  assert (select ctx (env "stock") (400 * Millisecond) = TimerFired) as Hss.
  { apply select_timer. unfold timer_at, ctx, WithTimeout. simpl.
    unfold aggregationTimeout, Millisecond in *. lia. }
  assert (select ctx (env "promotion") (50 * Millisecond) = TimerFired) as Hsm.
  { apply select_timer. unfold timer_at, ctx, WithTimeout. simpl.
    unfold aggregationTimeout, Millisecond in *. lia. }
  destruct (outcome_price env productID) as (rp & Hrp & _ & [(_ & Hvp & Hstp & Hep)|(Hc & _)]);
    [|congruence].
  destruct (outcome_stock env productID) as (rs & Hrs & _ & [(_ & Hvs & Hsts & Hes)|(Hc & _)]);
    [|congruence].
  destruct (outcome_promotion env productID) as (rm & Hrm & _ & [(_ & Hvm & Hstm & Hem)|(Hc & _)]);
    [|congruence].
  intros summary err Hret.
  pose proof (Returns_summary _ _ _ _ _ Hret)
    as (-> & _ & _ & _ & Hp & Hs & Hm & _).
  rewrite Hrp in Hp. rewrite Hrs in Hs. rewrite Hrm in Hm.
  unfold price_field in Hp. unfold stock_field in Hs. unfold promotion_field in Hm.
  rewrite decide_True, Hvp in Hp by done.
  rewrite decide_True, Hvs in Hs by done.
  rewrite decide_True, Hvm in Hm by done.
  simpl in Hp, Hs, Hm. simplify_eq.
  split_and!; try done.
  eapply Returns_no_errors; [|done].
  intros key r Hr.
  assert (key ∈ dom ServiceMap) as Hkey by by eapply outcome_dom.
  rewrite ServiceMap_dom in Hkey.
  assert (key = "price" ∨ key = "stock" ∨ key = "promotion") as Hcase
    by set_solver.
  destruct Hcase as [-> | [-> | ->]]; congruence.
Qed.

Lemma all_success_scenario_witness :
  (∃ summary, Returns ServiceMap prompt "SKU-1" summary None)
  ∧ Price (all_success "SKU-1") = price_49_99
  ∧ ServiceErrors (all_success "SKU-1") = [].
Proof.
  destruct (all_success_scenario prompt "SKU-1") as [Hex Hall].
  - discriminate.
  - vm_compute. reflexivity.
  - vm_compute. reflexivity.
  - vm_compute. reflexivity.
  - split; [exact Hex|].
    destruct (Hall (all_success "SKU-1") None interleaved_all_success)
      as (_ & Hp & _ & _ & _ & _ & _ & He).
    split; [exact Hp | exact He].
Defined.

(** C7. In every Summary that FanOutAndAggregate returns with the shipped
    registry, each of PriceStatus, StockStatus and PromotionStatus is
    SUCCESS or FALLBACK, and so never TIMEOUT or ERROR. *)
Theorem field_status_success_or_fallback env productID summary err :
  Returns ServiceMap env productID summary err →
  (PriceStatus summary = StatusSuccess ∨ PriceStatus summary = StatusFallback)
  ∧ (StockStatus summary = StatusSuccess ∨ StockStatus summary = StatusFallback)
  ∧ (PromotionStatus summary = StatusSuccess
     ∨ PromotionStatus summary = StatusFallback)
  ∧ PriceStatus summary ≠ StatusTimeout ∧ PriceStatus summary ≠ StatusError
  ∧ StockStatus summary ≠ StatusTimeout ∧ StockStatus summary ≠ StatusError
  ∧ PromotionStatus summary ≠ StatusTimeout
  ∧ PromotionStatus summary ≠ StatusError.
Proof.
  intros Hret.
  pose proof (Returns_summary _ _ _ _ _ Hret)
    as (_ & _ & _ & _ & Hp & Hs & Hm & _).
  destruct (outcome_price env productID) as (rp & Hrp & _).
  destruct (outcome_stock env productID) as (rs & Hrs & _).
  destruct (outcome_promotion env productID) as (rm & Hrm & _).
  rewrite Hrp in Hp. rewrite Hrs in Hs. rewrite Hrm in Hm.
  assert (PriceStatus summary = StatusSuccess
          ∨ PriceStatus summary = StatusFallback) as Hp'.
  { unfold price_field in Hp. case_decide; simplify_option_eq; eauto. }
  assert (StockStatus summary = StatusSuccess
          ∨ StockStatus summary = StatusFallback) as Hs'.
  { unfold stock_field in Hs. case_decide; simplify_option_eq; eauto. }
  assert (PromotionStatus summary = StatusSuccess
          ∨ PromotionStatus summary = StatusFallback) as Hm'.
  { unfold promotion_field in Hm. case_decide; simplify_option_eq; eauto. }
  split_and!; try done.
  all: first [destruct Hp' as [-> | ->]; done
             |destruct Hs' as [-> | ->]; done
             |destruct Hm' as [-> | ->]; done].
Qed.

Lemma field_status_success_or_fallback_witness :
  PriceStatus (price_timed_out "TEST-SKU-TIMEOUT") = StatusSuccess
  ∨ PriceStatus (price_timed_out "TEST-SKU-TIMEOUT") = StatusFallback.
Proof.
  destruct (field_status_success_or_fallback prompt "TEST-SKU-TIMEOUT"
              (price_timed_out "TEST-SKU-TIMEOUT") None
              interleaved_price_timed_out) as (H & _).
  exact H.
Defined.

(** C8. Timing is stamped only by the caller.  Every Summary that
    FanOutAndAggregate returns has TotalTimeMs at its zero value.
    GetCartSummary then answers 200 with that Summary in which TotalTimeMs
    is the elapsed time in milliseconds and every other field is as the
    engine returned it. *)
Theorem timing_stamped_by_caller reg env productID summary err elapsed :
  Returns reg env productID summary err →
  TotalTimeMs summary = 0
  ∧ ∃ body,
      GetCartSummary (summary, err) elapsed = HttpJSON 200 body
      ∧ TotalTimeMs body = Milliseconds elapsed
      ∧ ProductID body = ProductID summary
      ∧ Price body = Price summary ∧ PriceStatus body = PriceStatus summary
      ∧ Stock body = Stock summary ∧ StockStatus body = StockStatus summary
      ∧ Promotion body = Promotion summary
      ∧ PromotionStatus body = PromotionStatus summary
      ∧ ServiceErrors body = ServiceErrors summary.
Proof.
  intros (-> & _ & _ & Hzero & _)%Returns_summary. split; [done|].
  eexists. split; [reflexivity|]. by split_and!.
Qed.

Lemma timing_stamped_by_caller_witness :
  ∃ body,
    GetCartSummary (all_success "SKU-1", None) (405 * Millisecond)
    = HttpJSON 200 body
    ∧ TotalTimeMs body = 405.
Proof.
  destruct (timing_stamped_by_caller ServiceMap prompt "SKU-1"
              (all_success "SKU-1") None (405 * Millisecond)
              interleaved_all_success) as (_ & body & Hresp & Htime & _).
  exists body. split; [exact Hresp|]. rewrite Htime. reflexivity.
Defined.

(** C9. Idempotence.  Two calls with the same product id, the same
    registry and the same behaviour of the backends return the same error
    (nil) and Summaries with the same product id, the same field values and
    statuses and the same TotalTimeMs; their error lists hold the same
    ServiceErrors, possibly in another order. *)
Theorem idempotence reg env productID summary1 err1 summary2 err2 :
  Returns reg env productID summary1 err1 →
  Returns reg env productID summary2 err2 →
  err1 = err2
  ∧ ProductID summary1 = ProductID summary2
  ∧ Price summary1 = Price summary2
  ∧ PriceStatus summary1 = PriceStatus summary2
  ∧ Stock summary1 = Stock summary2
  ∧ StockStatus summary1 = StockStatus summary2
  ∧ Promotion summary1 = Promotion summary2
  ∧ PromotionStatus summary1 = PromotionStatus summary2
  ∧ TotalTimeMs summary1 = TotalTimeMs summary2
  ∧ ServiceErrors summary1 ≡ₚ ServiceErrors summary2.
Proof.
  intros (-> & _ & Hid1 & Ht1 & Hp1 & Hs1 & Hm1 & He1)%Returns_summary.
  intros (-> & _ & Hid2 & Ht2 & Hp2 & Hs2 & Hm2 & He2)%Returns_summary.
  rewrite Hp1 in Hp2. rewrite Hs1 in Hs2. rewrite Hm1 in Hm2.
  simplify_eq. split_and!; try done; try congruence.
  by rewrite He1, He2.
Qed.

Lemma flaky_price_first :
  Returns flaky prompt "SKU-1"
    (both_failed "SKU-1" [failed "price"; failed "stock"]) None.
Proof. exists price_first. eexists. split; vm_compute; reflexivity. Qed.

Lemma flaky_stock_first :
  Returns flaky prompt "SKU-1"
    (both_failed "SKU-1" [failed "stock"; failed "price"]) None.
Proof. exists stock_first. eexists. split; vm_compute; reflexivity. Qed.

Lemma idempotence_witness :
  [failed "price"; failed "stock"] ≡ₚ [failed "stock"; failed "price"].
Proof.
  destruct (idempotence flaky prompt "SKU-1"
              (both_failed "SKU-1" [failed "price"; failed "stock"]) None
              (both_failed "SKU-1" [failed "stock"; failed "price"]) None
              flaky_price_first flaky_stock_first)
    as (_ & _ & _ & _ & _ & _ & _ & _ & _ & H).
  exact H.
Defined.

(** C10. With the shipped registry no type assertion of the fan-in loop
    panics: no run reaches a panic, because an outcome whose status is
    SUCCESS carries a float64 (49.99) under "price", an int (120) under
    "stock" and a string under "promotion". *)
Theorem type_assertions_never_panic env productID sched σ :
  FanOutAndAggregate ServiceMap env productID sched = Some σ →
  panic σ = None
  ∧ ∀ key r,
      outcome ServiceMap env productID key = Some r →
      FetchResult.Status r = StatusSuccess →
      (key = "price" ∧ FetchResult.Value r = VFloat64 price_49_99)
      ∨ (key = "stock" ∧ FetchResult.Value r = VInt 120)
      ∨ (key = "promotion"
         ∧ FetchResult.Value r = VString "Buy 1 Get 1 Half Off!").
Proof.
  intros Hrun. split.
  - eapply Inv_no_panic; [by eapply run_Inv | apply ServiceMap_well_typed].
  - intros key r Hr Hst.
    assert (key ∈ dom ServiceMap) as Hkey by by eapply outcome_dom.
    rewrite ServiceMap_dom in Hkey.
    assert (key = "price" ∨ key = "stock" ∨ key = "promotion") as Hcase
      by set_solver.
    destruct Hcase as [-> | [-> | ->]].
    + destruct (outcome_price env productID)
        as (r' & Hr' & _ & [(_ & Hv & _)|(_ & Hs & _)]);
        rewrite Hr in Hr'; simplify_eq; [by left | by rewrite Hst in Hs].
    + destruct (outcome_stock env productID)
        as (r' & Hr' & _ & [(_ & Hv & _)|(_ & Hs & _)]);
        rewrite Hr in Hr'; simplify_eq; [by right; left | by rewrite Hst in Hs].
    + destruct (outcome_promotion env productID)
        as (r' & Hr' & _ & [(_ & Hv & _)|(_ & Hs & _)]);
        rewrite Hr in Hr'; simplify_eq; [by right; right | by rewrite Hst in Hs].
Qed.

Lemma type_assertions_never_panic_witness :
  ∃ σ, FanOutAndAggregate ServiceMap prompt "SKU-1" interleaved = Some σ
       ∧ panic σ = None.
Proof.
  destruct interleaved_run as (σ & Hrun & _).
  exists σ. split; [exact Hrun|].
  destruct (type_assertions_never_panic prompt "SKU-1" interleaved σ Hrun)
    as [Hp _].
  exact Hp.
Defined.

(** * Further properties of the code *)

Lemma CartSummary_eq (s1 s2 : CartSummary) :
  ProductID s1 = ProductID s2 →
  Price s1 = Price s2 → PriceStatus s1 = PriceStatus s2 →
  Stock s1 = Stock s2 → StockStatus s1 = StockStatus s2 →
  Promotion s1 = Promotion s2 → PromotionStatus s1 = PromotionStatus s2 →
  TotalTimeMs s1 = TotalTimeMs s2 →
  ServiceErrors s1 = ServiceErrors s2 →
  s1 = s2.
Proof. destruct s1, s2; simpl; intros; by subst. Qed.

Lemma ServiceMap_elements :
  elements (dom ServiceMap) ≡ₚ ["price"; "stock"; "promotion"].
Proof.
  apply NoDup_Permutation.
  - apply NoDup_elements.
  - repeat (apply NoDup_cons; split; [set_solver|]). apply NoDup_nil_2.
  - intros k. rewrite elem_of_elements, ServiceMap_dom. set_solver.
Qed.

Lemma ServiceMap_outcomes env productID rp rs rm :
  outcome ServiceMap env productID "price" = Some rp →
  outcome ServiceMap env productID "stock" = Some rs →
  outcome ServiceMap env productID "promotion" = Some rm →
  outcomes ServiceMap env productID ≡ₚ [rp; rs; rm].
Proof.
  intros Hp Hs Hm. unfold outcomes. rewrite ServiceMap_elements.
  csimpl. by rewrite Hp, Hs, Hm.
Qed.

(** X1. The timeout scenario of the shipped registry.  For the product id
    "TEST-SKU-TIMEOUT" the price backend waits 500ms: when the deadline
    comes before its timer and the two other workers are on time, the call
    returns, and every return is the Summary with the fallback price 0 and
    status FALLBACK, the stock and the promotion of the backends with status
    SUCCESS, and exactly one ServiceError, for "price", with Timeout set. *)
Theorem price_timeout_scenario env :
  aggregationTimeout < started (env "price") + 500 * Millisecond →
  started (env "stock") + 400 * Millisecond < aggregationTimeout →
  started (env "promotion") + 50 * Millisecond < aggregationTimeout →
  (∃ summary, Returns ServiceMap env "TEST-SKU-TIMEOUT" summary None)
  ∧ ∀ summary err,
      Returns ServiceMap env "TEST-SKU-TIMEOUT" summary err →
      summary = price_timed_out "TEST-SKU-TIMEOUT" ∧ err = None.
Proof.
  intros Hprice Hstock Hpromo.
  split; [apply Returns_exists, ServiceMap_well_typed|].
  assert (select ctx (env "price") (price_delay "TEST-SKU-TIMEOUT") = CtxDone)
    as Hsp.
  { apply select_deadline; unfold timer_at, price_delay, ctx, WithTimeout;
      rewrite ?decide_True by done; simpl;
      unfold aggregationTimeout, Millisecond in *; lia. }
  assert (select ctx (env "stock") (400 * Millisecond) = TimerFired) as Hss.
  { apply select_timer. unfold timer_at, ctx, WithTimeout. simpl.
    unfold aggregationTimeout, Millisecond in *. lia. }
  assert (select ctx (env "promotion") (50 * Millisecond) = TimerFired) as Hsm.
  { apply select_timer. unfold timer_at, ctx, WithTimeout. simpl.
    unfold aggregationTimeout, Millisecond in *. lia. }
  destruct (outcome_price env "TEST-SKU-TIMEOUT")
    as (rp & Hrp & _ & [(Hc & _)|(_ & Hstp & Hep)]); [congruence|].
  destruct (outcome_stock env "TEST-SKU-TIMEOUT")
    as (rs & Hrs & _ & [(_ & Hvs & Hsts & Hes)|(Hc & _)]); [|congruence].
  destruct (outcome_promotion env "TEST-SKU-TIMEOUT")
    as (rm & Hrm & _ & [(_ & Hvm & Hstm & Hem)|(Hc & _)]); [|congruence].
  intros summary err Hret.
  pose proof (Returns_summary _ _ _ _ _ Hret)
    as (-> & _ & Hid & Htime & Hp & Hs & Hm & Herrs).
  split; [|done].
  rewrite (ServiceMap_outcomes _ _ _ _ _ Hrp Hrs Hrm) in Herrs.
  csimpl in Herrs. rewrite Hep, Hes, Hem in Herrs.
  apply Permutation_singleton_r in Herrs.
  rewrite Hrp in Hp. rewrite Hrs in Hs. rewrite Hrm in Hm.
  unfold price_field in Hp. unfold stock_field in Hs. unfold promotion_field in Hm.
  rewrite decide_False in Hp by (by rewrite Hstp).
  rewrite decide_True, Hvs in Hs by done.
  rewrite decide_True, Hvm in Hm by done.
  simpl in Hp, Hs, Hm. simplify_eq.
  by apply CartSummary_eq.
Qed.

Lemma price_timeout_scenario_witness :
  ∃ summary, Returns ServiceMap price_late "TEST-SKU-TIMEOUT" summary None.
Proof.
  destruct (price_timeout_scenario price_late) as [Hex _].
  - vm_compute. reflexivity.
  - vm_compute. reflexivity.
  - vm_compute. reflexivity.
  - exact Hex.
Defined.

(** X2. The empty registry.  With no backend registered the call returns,
    and every return is the Summary holding the product id and nothing
    else (zero values, empty statuses, no error), with a nil error. *)
Theorem empty_registry_zero_summary env productID :
  Returns ∅ env productID (CartSummary_of productID) None
  ∧ ∀ summary err,
      Returns ∅ env productID summary err →
      summary = CartSummary_of productID ∧ err = None.
Proof.
  split.
  - exists no_worker. eexists. split; reflexivity.
  - intros summary err Hret.
    pose proof (Returns_summary _ _ _ _ _ Hret)
      as (-> & _ & Hid & Htime & Hp & Hs & Hm & Herrs).
    split; [|done].
    unfold outcome in Hp, Hs, Hm. rewrite lookup_empty in Hp, Hs, Hm.
    unfold outcomes in Herrs. rewrite dom_empty_L, elements_empty in Herrs.
    apply Permutation_nil_r in Herrs.
    simpl in Hp, Hs, Hm. simplify_eq. by apply CartSummary_eq.
Qed.

(** X3. A key that is not registered.  For every registry, in every
    returned Summary the field of a key among "price", "stock" and
    "promotion" under which no backend is registered keeps its zero value,
    and its status is the empty string: none of the four Status
    constants. *)
Theorem unregistered_key_empty_status reg env productID summary err :
  Returns reg env productID summary err →
  (reg !! "price" = None →
     Price summary = 0%float ∧ PriceStatus summary = "")
  ∧ (reg !! "stock" = None →
     Stock summary = 0 ∧ StockStatus summary = "")
  ∧ (reg !! "promotion" = None →
     Promotion summary = "" ∧ PromotionStatus summary = "")
  ∧ ("" : Status) ≠ StatusSuccess ∧ ("" : Status) ≠ StatusTimeout
  ∧ ("" : Status) ≠ StatusError ∧ ("" : Status) ≠ StatusFallback.
Proof.
  intros (_ & _ & _ & _ & Hp & Hs & Hm & _)%Returns_summary.
  unfold outcome in Hp, Hs, Hm.
  split_and!; try done; intros Hnone; rewrite Hnone in *; simpl in *;
    by simplify_eq.
Qed.

Lemma unregistered_key_empty_status_witness :
  Promotion (both_failed "SKU-1" [failed "price"; failed "stock"]) = ""
  ∧ PromotionStatus (both_failed "SKU-1" [failed "price"; failed "stock"]) = "".
Proof.
  destruct (unregistered_key_empty_status flaky prompt "SKU-1"
              (both_failed "SKU-1" [failed "price"; failed "stock"]) None
              flaky_price_first) as (_ & _ & H & _).
  apply H. vm_compute. reflexivity.
Defined.

Lemma well_typed_other_key r :
  FetchResult.Key r ≠ "price" → FetchResult.Key r ≠ "stock" →
  FetchResult.Key r ≠ "promotion" → well_typed r.
Proof.
  intros ??? s e. unfold fanIn. rewrite !decide_False by done. by eexists.
Qed.

(** X4. Unexpected keys.  When none of "price", "stock", "promotion" is
    registered and every backend returns, no run panics, whatever values the
    backends produce; the call returns, and every returned Summary has all
    its fields at their zero values while its error list holds the
    ServiceErrors of the failed outcomes. *)
Theorem unexpected_keys_discarded reg env productID :
  reg !! "price" = None → reg !! "stock" = None → reg !! "promotion" = None →
  backends_return reg env productID →
  (∀ sched σ, FanOutAndAggregate reg env productID sched = Some σ →
     panic σ = None)
  ∧ (∃ summary, Returns reg env productID summary None)
  ∧ ∀ summary err,
      Returns reg env productID summary err →
      err = None
      ∧ ServiceErrors summary
        ≡ₚ omap FetchResult.Error (outcomes reg env productID)
      ∧ set_ServiceErrors [] summary = CartSummary_of productID.
Proof.
  intros Hp Hs Hm Hret.
  assert (backends_well_typed reg env productID) as Hwt.
  { intros key Hkey. destruct (Hret key Hkey) as [r Hr]. exists r.
    split; [done|]. pose proof (outcome_key _ _ _ _ _ Hr) as Hk.
    apply elem_of_dom in Hkey as [fn Hfn].
    apply well_typed_other_key; rewrite Hk; intros ->; congruence. }
  split_and!.
  - intros sched σ Hrun. eapply Inv_no_panic; [by eapply run_Inv | done].
  - by apply Returns_exists.
  - intros summary err Hsum.
    pose proof (Returns_summary _ _ _ _ _ Hsum)
      as (-> & _ & Hid & Htime & Hfp & Hfs & Hfm & Herrs).
    unfold outcome in Hfp, Hfs, Hfm. rewrite Hp in Hfp. rewrite Hs in Hfs.
    rewrite Hm in Hfm. simpl in Hfp, Hfs, Hfm. simplify_eq.
    split_and!; [done|done|]. by apply CartSummary_eq.
Qed.

Lemma tax_only_returns :
  Returns tax_only prompt "SKU-1" (tax_failed "SKU-1") None.
Proof.
  exists (one_worker "tax" ++ [MainReturn]). eexists.
  split; vm_compute; reflexivity.
Qed.

Lemma unexpected_keys_discarded_witness :
  set_ServiceErrors [] (tax_failed "SKU-1") = CartSummary_of "SKU-1".
Proof.
  destruct (unexpected_keys_discarded tax_only prompt "SKU-1")
    as (_ & _ & H).
  - vm_compute. reflexivity.
  - vm_compute. reflexivity.
  - vm_compute. reflexivity.
  - intros key [fn Hfn]%elem_of_dom. unfold tax_only in Hfn.
    apply lookup_insert_Some in Hfn as [[<- <-]|[_ Hfn]];
      [|by rewrite lookup_empty in Hfn].
    vm_compute. eexists. reflexivity.
  - destruct (H (tax_failed "SKU-1") None tax_only_returns) as (_ & _ & Heq).
    exact Heq.
Defined.

(** X5. A backend of the wrong type.  If the outcome of "price" is a
    success whose value is not a float64 (or that of "stock" not an int, or
    that of "promotion" not a string), the call never returns, under any
    schedule; when every backend returns, some run ends in the panic of the
    type assertion. *)
Theorem mistyped_backend_panics reg env productID r :
  outcome reg env productID (FetchResult.Key r) = Some r →
  FetchResult.Status r = StatusSuccess →
  (FetchResult.Key r = "price" ∧ assert_float64 (FetchResult.Value r) = None)
  ∨ (FetchResult.Key r = "stock" ∧ assert_int (FetchResult.Value r) = None)
  ∨ (FetchResult.Key r = "promotion"
     ∧ assert_string (FetchResult.Value r) = None) →
  (∀ summary err, ¬ Returns reg env productID summary err)
  ∧ (backends_return reg env productID →
       Panics reg env productID PanicTypeAssertion).
Proof.
  intros Hr Hst Hbad.
  assert (∀ summary err, ¬ Returns reg env productID summary err) as Hnever.
  { intros summary err (_ & _ & _ & _ & Hp & Hs & Hm & _)%Returns_summary.
    destruct Hbad as [[Hk Hv]|[[Hk Hv]|[Hk Hv]]]; rewrite Hk in Hr.
    - rewrite Hr in Hp. unfold price_field in Hp.
      rewrite decide_True, Hv in Hp by done. done.
    - rewrite Hr in Hs. unfold stock_field in Hs.
      rewrite decide_True, Hv in Hs by done. done.
    - rewrite Hr in Hm. unfold promotion_field in Hm.
      rewrite decide_True, Hv in Hm by done. done. }
  split; [done|]. intros Hret.
  destruct (completion reg env productID (init reg) (Inv_init _ _ _) Hret)
    as (sched & σ & Hexec & Hover).
  destruct Hover as [[p Hp]|(summary & err & Hpc)].
  - exists sched, σ. split; [done|].
    assert (Inv reg env productID σ) as HI by by eapply run_Inv.
    by destruct (inv_panic _ _ _ _ HI p Hp) as [-> _].
  - destruct (Hnever summary err). by exists sched, σ.
Qed.

Lemma mistyped_backend_panics_witness :
  Panics mistyped_registry prompt "SKU-1" PanicTypeAssertion.
Proof.
  destruct (mistyped_backend_panics mistyped_registry prompt "SKU-1"
              {| FetchResult.Key := "price";
                 FetchResult.Value := VString "49.99";
                 FetchResult.Status := StatusSuccess;
                 FetchResult.Error := None |}) as [_ H].
  - vm_compute. reflexivity.
  - reflexivity.
  - left. split; reflexivity.
  - apply H. intros key [fn Hfn]%elem_of_dom. unfold mistyped_registry in Hfn.
    apply lookup_insert_Some in Hfn as [[<- <-]|[_ Hfn]];
      [|by rewrite lookup_empty in Hfn].
    vm_compute. eexists. reflexivity.
Defined.

(** X6. The only panic is a failed type assertion.  In every state that a
    round can reach, for every registry and schedule, the program has not
    panicked or has panicked in a type assertion of the fan-in loop: no
    worker sends on the closed channel and the WaitGroup counter never goes
    below zero; the counter is the number of registered workers that have
    not yet called Done. *)
Theorem only_type_assertion_panics reg env productID sched σ :
  FanOutAndAggregate reg env productID sched = Some σ →
  (panic σ = None ∨ panic σ = Some PanicTypeAssertion)
  ∧ wg σ = Z.of_nat (size reg) - Z.of_nat (size (finished σ))
  ∧ 0 ≤ wg σ ≤ Z.of_nat (size reg).
Proof.
  intros Hrun. pose proof (run_Inv _ _ _ _ _ Hrun) as HI.
  pose proof (Inv_sizes _ _ _ _ HI) as (? & ? & ?).
  pose proof (inv_wg _ _ _ _ HI) as Hwg.
  split_and!; [|done|lia|lia].
  destruct (panic σ) as [p|] eqn:Hp; [|by left].
  right. by destruct (inv_panic _ _ _ _ HI p Hp) as [-> _].
Qed.

Lemma mistyped_run :
  ∃ σ, FanOutAndAggregate mistyped_registry prompt "SKU-1" (one_worker "price")
       = Some σ
       ∧ panic σ = Some PanicTypeAssertion.
Proof.
  destruct (FanOutAndAggregate mistyped_registry prompt "SKU-1"
              (one_worker "price")) as [σ|] eqn:Hrun; [|by vm_compute in Hrun].
  exists σ. split; [done|].
  assert (panic <$> FanOutAndAggregate mistyped_registry prompt "SKU-1"
                      (one_worker "price")
          = Some (Some PanicTypeAssertion)) as H by (vm_compute; reflexivity).
  rewrite Hrun in H. by injection H.
Qed.

Lemma only_type_assertion_panics_witness :
  ∃ σ, FanOutAndAggregate mistyped_registry prompt "SKU-1" (one_worker "price")
       = Some σ
       ∧ wg σ = 0.
Proof.
  destruct mistyped_run as (σ & Hrun & Hp).
  exists σ. split; [exact Hrun|].
  destruct (only_type_assertion_panics mistyped_registry prompt "SKU-1"
              (one_worker "price") σ Hrun) as (_ & Hwg & Hle).
  assert (finished σ = dom mistyped_registry) as Hfin.
  { assert (finished <$> FanOutAndAggregate mistyped_registry prompt "SKU-1"
                           (one_worker "price")
            = Some (dom mistyped_registry)) as H by (vm_compute; reflexivity).
    rewrite Hrun in H. by injection H. }
  rewrite Hwg, Hfin, size_dom. lia.
Defined.

(** X7. No goroutine is left behind.  In the state in which the call
    returns, for every registry and schedule, every registered worker has
    been started, has sent its outcome and has called Done, the WaitGroup
    counter is zero, the join task has closed the channel and the channel
    is empty. *)
Theorem no_goroutine_left_at_return reg env productID sched σ summary err :
  FanOutAndAggregate reg env productID sched = Some σ →
  pc σ = MReturned summary err →
  launched σ = dom reg ∧ sent σ = dom reg ∧ finished σ = dom reg
  ∧ wg σ = 0 ∧ joiner σ = JDone ∧ closed σ = true ∧ buf σ = []
  ∧ panic σ = None.
Proof.
  intros Hrun Hpc. pose proof (run_Inv _ _ _ _ _ Hrun) as HI.
  pose proof (inv_pc _ _ _ _ HI) as H. rewrite Hpc in H.
  destruct H as (_ & Hbuf & Hclosed & Hp & _).
  pose proof (inv_close_all _ _ _ _ HI Hclosed) as Hfin.
  pose proof (inv_finished _ _ _ _ HI) as H1.
  pose proof (inv_sent _ _ _ _ HI) as H2.
  pose proof (inv_launched _ _ _ _ HI) as H3.
  pose proof (inv_wg _ _ _ _ HI) as Hwg.
  rewrite Hfin, size_dom in Hwg.
  split_and!; try done.
  - clear HI Hwg. set_solver.
  - clear HI Hwg. set_solver.
  - lia.
  - by apply (inv_closed _ _ _ _ HI).
Qed.

Lemma no_goroutine_left_at_return_witness :
  ∃ σ, FanOutAndAggregate ServiceMap prompt "SKU-1" interleaved = Some σ
       ∧ finished σ = dom ServiceMap ∧ wg σ = 0.
Proof.
  destruct interleaved_run as (σ & Hrun & Hpc).
  exists σ. split; [exact Hrun|].
  destruct (no_goroutine_left_at_return ServiceMap prompt "SKU-1" interleaved
              σ _ _ Hrun Hpc) as (_ & _ & Hfin & Hwg & _).
  split; [exact Hfin | exact Hwg].
Defined.

(** X8. No worker blocks on its send.  In every state that a round can
    reach without a panic, a worker that has been started, has not sent yet
    and whose backend call has returned can send at once: the channel is
    not closed and its buffer, of capacity the number of registered
    backends, has room.  The buffer never holds more than that many
    outcomes. *)
Theorem send_never_blocks reg env productID sched σ key r :
  FanOutAndAggregate reg env productID sched = Some σ →
  panic σ = None →
  key ∈ launched σ → key ∉ sent σ →
  outcome reg env productID key = Some r →
  (length (buf σ) < size reg)%nat
  ∧ closed σ = false
  ∧ ∃ σ', step reg env productID (WorkerSend key) σ = Some σ'
          ∧ buf σ' = buf σ ++ [r] ∧ panic σ' = None.
Proof.
  intros Hrun Hp Hl Hs Hr. pose proof (run_Inv _ _ _ _ _ Hrun) as HI.
  pose proof (Inv_received _ _ _ _ HI) as Hrecv.
  pose proof (inv_sent _ _ _ _ HI) as H2.
  pose proof (inv_launched _ _ _ _ HI) as H3.
  assert (size (sent σ) < size reg)%nat as Hlt.
  { apply fresh_size with (k := key); [exact env| |done|]; clear HI Hrecv; set_solver. }
  assert (closed σ = false) as Hclosed.
  { destruct (closed σ) eqn:Hc; [|done].
    pose proof (inv_close_all _ _ _ _ HI Hc) as Hfin.
    pose proof (inv_finished _ _ _ _ HI) as H1.
    clear HI Hrecv. set_solver. }
  split_and!; [lia|done|].
  unfold step, workerSend. rewrite Hp, decide_True, Hr, Hclosed by done.
  rewrite decide_True by lia. eexists. by split_and!.
Qed.

Lemma send_never_blocks_witness :
  ∃ σ, FanOutAndAggregate ServiceMap prompt "SKU-1" [GoWorker "stock"] = Some σ
       ∧ (length (buf σ) < size ServiceMap)%nat.
Proof.
  destruct (FanOutAndAggregate ServiceMap prompt "SKU-1" [GoWorker "stock"])
    as [σ|] eqn:Hrun; [|by vm_compute in Hrun].
  exists σ. split; [reflexivity|].
  assert (panic σ = None) as Hp.
  { assert (panic <$> FanOutAndAggregate ServiceMap prompt "SKU-1"
                        [GoWorker "stock"] = Some None) as H
      by (vm_compute; reflexivity).
    rewrite Hrun in H. by injection H. }
  assert (launched σ = {["stock"]}) as Hl.
  { assert (launched <$> FanOutAndAggregate ServiceMap prompt "SKU-1"
                           [GoWorker "stock"] = Some {["stock"]}) as H
      by (vm_compute; reflexivity).
    rewrite Hrun in H. by injection H. }
  assert (sent σ = ∅) as Hs.
  { assert (sent <$> FanOutAndAggregate ServiceMap prompt "SKU-1"
                       [GoWorker "stock"] = Some ∅) as H
      by (vm_compute; reflexivity).
    rewrite Hrun in H. by injection H. }
  destruct (send_never_blocks ServiceMap prompt "SKU-1" [GoWorker "stock"] σ
              "stock"
              {| FetchResult.Key := "stock";
                 FetchResult.Value := VInt 120;
                 FetchResult.Status := StatusSuccess;
                 FetchResult.Error := None |}) as (Hlen & _).
  - exact Hrun.
  - exact Hp.
  - rewrite Hl. by apply elem_of_singleton.
  - rewrite Hs. apply not_elem_of_empty.
  - vm_compute. reflexivity.
  - exact Hlen.
Defined.

Lemma errors_count (rs : list FetchResult.t) :
  Forall (λ r, (FetchResult.Status r = StatusSuccess ∧ FetchResult.Error r = None)
               ∨ ((FetchResult.Status r = StatusTimeout
                   ∨ FetchResult.Status r = StatusError)
                  ∧ is_Some (FetchResult.Error r))) rs →
  length (omap FetchResult.Error rs)
  = length (filter (λ r, FetchResult.Status r ≠ StatusSuccess) rs).
Proof.
  induction 1 as [|r rs Hr _ IH]; [done|].
  csimpl. rewrite filter_cons.
  destruct Hr as [[Hs He]|[Hs [e He]]]; rewrite He.
  - rewrite decide_False by (intros Hne; by apply Hne). done.
  - rewrite decide_True by (by destruct Hs as [-> | ->]). simpl. by rewrite IH.
Qed.

(** X9. The error list follows the arrivals.  When the call returns, for
    every registry and schedule, the Summary's error list is the list of the
    ServiceErrors of the outcomes in the order in which the loop received
    them, and it has as many entries as there are received outcomes whose
    status is not SUCCESS. *)
Theorem errors_in_arrival_order reg env productID sched σ summary err :
  FanOutAndAggregate reg env productID sched = Some σ →
  pc σ = MReturned summary err →
  ServiceErrors summary = omap FetchResult.Error (drained σ)
  ∧ length (ServiceErrors summary)
    = length (filter (λ r, FetchResult.Status r ≠ StatusSuccess) (drained σ)).
Proof.
  intros Hrun Hpc. pose proof (run_Inv _ _ _ _ _ Hrun) as HI.
  destruct (returned_summary _ _ _ _ _ _ HI Hpc) as (_ & _ & _ & _ & _ & _ & ->).
  split; [done|]. apply errors_count, Forall_forall. intros r Hr.
  destruct (Inv_drained_outcome _ _ _ σ r HI) as (k & _ & Hout & _).
  { apply elem_of_app. by left. }
  by eapply outcome_status.
Qed.

Lemma flaky_stock_first_run :
  ∃ σ, FanOutAndAggregate flaky prompt "SKU-1" stock_first = Some σ
       ∧ pc σ = MReturned
                  (both_failed "SKU-1" [failed "stock"; failed "price"]) None.
Proof. apply run_returned. vm_compute. reflexivity. Qed.

Lemma errors_in_arrival_order_witness :
  ∃ σ, FanOutAndAggregate flaky prompt "SKU-1" stock_first = Some σ
       ∧ omap FetchResult.Error (drained σ) = [failed "stock"; failed "price"].
Proof.
  destruct flaky_stock_first_run as (σ & Hrun & Hpc).
  exists σ. split; [exact Hrun|].
  destruct (errors_in_arrival_order flaky prompt "SKU-1" stock_first σ _ _
              Hrun Hpc) as [Herrs _].
  symmetry. exact Herrs.
Defined.

(** X10. What the handler answers.  After a round that returned, with a
    non-negative elapsed time, GetCartSummary answers 200 with a Summary
    whose product id is the requested one and whose TotalTimeMs is the
    elapsed time in whole milliseconds, rounded down. *)
Theorem handler_answers_whole_milliseconds reg env productID summary err elapsed :
  Returns reg env productID summary err →
  0 ≤ elapsed →
  ∃ body,
    GetCartSummary (summary, err) elapsed = HttpJSON 200 body
    ∧ ProductID body = productID
    ∧ TotalTimeMs body * 1000000 ≤ elapsed < (TotalTimeMs body + 1) * 1000000.
Proof.
  intros (-> & _ & Hid & _)%Returns_summary Hel.
  eexists. split; [reflexivity|]. split; [done|]. simpl.
  unfold Milliseconds. rewrite Z.quot_div_nonneg by lia.
  pose proof (Z.div_mod elapsed 1000000).
  pose proof (Z.mod_pos_bound elapsed 1000000). lia.
Qed.

Lemma handler_answers_whole_milliseconds_witness :
  ∃ body,
    GetCartSummary (all_success "SKU-1", None) 404999999 = HttpJSON 200 body
    ∧ ProductID body = "SKU-1"
    ∧ TotalTimeMs body * 1000000 ≤ 404999999 < (TotalTimeMs body + 1) * 1000000.
Proof.
  apply (handler_answers_whole_milliseconds ServiceMap prompt "SKU-1"
           (all_success "SKU-1") None 404999999 interleaved_all_success).
  lia.
Defined.

Lemma price_field_cases o v st :
  price_field o = Some (v, st) →
  (o = None ∧ st = "" ∧ v = 0%float)
  ∨ (is_Some o ∧ st = StatusSuccess)
  ∨ (is_Some o ∧ st = StatusFallback ∧ v = 0%float).
Proof.
  unfold price_field. destruct o as [r|]; [|intros [= <- <-]; by left].
  case_decide.
  - destruct (assert_float64 _); intros ?; simplify_eq/=.
    right; left. split; [by eexists|done].
  - intros [= <- <-]. right; right. split_and!; [by eexists|done|done].
Qed.

Lemma stock_field_cases o v st :
  stock_field o = Some (v, st) →
  (o = None ∧ st = "" ∧ v = 0)
  ∨ (is_Some o ∧ st = StatusSuccess)
  ∨ (is_Some o ∧ st = StatusFallback ∧ v = 0).
Proof.
  unfold stock_field. destruct o as [r|]; [|intros [= <- <-]; by left].
  case_decide.
  - destruct (assert_int _); intros ?; simplify_eq/=.
    right; left. split; [by eexists|done].
  - intros [= <- <-]. right; right. split_and!; [by eexists|done|done].
Qed.

Lemma promotion_field_cases o v st :
  promotion_field o = Some (v, st) →
  (o = None ∧ st = "" ∧ v = "")
  ∨ (is_Some o ∧ st = StatusSuccess)
  ∨ (is_Some o ∧ st = StatusFallback ∧ v = "No promotions available").
Proof.
  unfold promotion_field. destruct o as [r|]; [|intros [= <- <-]; by left].
  case_decide.
  - destruct (assert_string _); intros ?; simplify_eq/=.
    right; left. split; [by eexists|done].
  - intros [= <- <-]. right; right. split_and!; [by eexists|done|done].
Qed.

(** X11. The status of a field tells its value.  In every returned
    Summary, for every registry, each field status is the empty string,
    SUCCESS or FALLBACK; a field whose status is FALLBACK holds its fallback
    constant, and a status is empty only when no backend is registered under
    the key. *)
Theorem status_tells_the_value reg env productID summary err :
  Returns reg env productID summary err →
  (PriceStatus summary = "" ∨ PriceStatus summary = StatusSuccess
   ∨ PriceStatus summary = StatusFallback)
  ∧ (StockStatus summary = "" ∨ StockStatus summary = StatusSuccess
     ∨ StockStatus summary = StatusFallback)
  ∧ (PromotionStatus summary = "" ∨ PromotionStatus summary = StatusSuccess
     ∨ PromotionStatus summary = StatusFallback)
  ∧ (PriceStatus summary = StatusFallback → Price summary = 0%float)
  ∧ (StockStatus summary = StatusFallback → Stock summary = 0)
  ∧ (PromotionStatus summary = StatusFallback →
       Promotion summary = "No promotions available")
  ∧ (PriceStatus summary = "" → reg !! "price" = None)
  ∧ (StockStatus summary = "" → reg !! "stock" = None)
  ∧ (PromotionStatus summary = "" → reg !! "promotion" = None).
Proof.
  intros (_ & Hret & _ & _ & Hp & Hs & Hm & _)%Returns_summary.
  assert (∀ key, outcome reg env productID key = None → reg !! key = None)
    as Hnone.
  { intros key Hk. destruct (reg !! key) as [fn|] eqn:Hfn; [|done].
    destruct (Hret key) as [r Hr]; [by apply elem_of_dom; eexists|].
    congruence. }
  apply price_field_cases in Hp. apply stock_field_cases in Hs.
  apply promotion_field_cases in Hm.
  split_and!.
  - destruct Hp as [(_ & -> & _)|[(_ & ->)|(_ & -> & _)]]; auto.
  - destruct Hs as [(_ & -> & _)|[(_ & ->)|(_ & -> & _)]]; auto.
  - destruct Hm as [(_ & -> & _)|[(_ & ->)|(_ & -> & _)]]; auto.
  - destruct Hp as [(_ & -> & _)|[(_ & ->)|(_ & -> & ->)]]; done.
  - destruct Hs as [(_ & -> & _)|[(_ & ->)|(_ & -> & ->)]]; done.
  - destruct Hm as [(_ & -> & _)|[(_ & ->)|(_ & -> & ->)]]; done.
  - destruct Hp as [(Ho & _)|[(_ & ->)|(_ & -> & _)]]; [auto|done|done].
  - destruct Hs as [(Ho & _)|[(_ & ->)|(_ & -> & _)]]; [auto|done|done].
  - destruct Hm as [(Ho & _)|[(_ & ->)|(_ & -> & _)]]; [auto|done|done].
Qed.

Lemma status_tells_the_value_witness :
  Price (price_timed_out "TEST-SKU-TIMEOUT") = 0%float.
Proof.
  destruct (status_tells_the_value ServiceMap prompt "TEST-SKU-TIMEOUT"
              (price_timed_out "TEST-SKU-TIMEOUT") None
              interleaved_price_timed_out) as (_ & _ & _ & H & _).
  apply H. reflexivity.
Defined.

Lemma WriteHeader_Header code w :
  cors.Header (cors.WriteHeader code w) = cors.Header w.
Proof. unfold cors.WriteHeader. by destruct (cors.Code w). Qed.

(** X12. The CORS preflight.  An OPTIONS request is answered by the
    middleware itself: the answer does not depend on the wrapped handler,
    its status is 200 when no status was written before, and it carries the
    three Access-Control headers, the allowed origin being
    http://localhost:3000. *)
Theorem preflight_answered_by_middleware next next' r w :
  cors.Method r = "OPTIONS" →
  cors.enableCORS next r w = cors.enableCORS next' r w
  ∧ (cors.Code w = None → cors.Code (cors.enableCORS next r w) = Some 200)
  ∧ cors.Header (cors.enableCORS next r w) !! "Access-Control-Allow-Origin"
    = Some ["http://localhost:3000"]
  ∧ cors.Header (cors.enableCORS next r w) !! "Access-Control-Allow-Methods"
    = Some ["GET, POST, OPTIONS"]
  ∧ cors.Header (cors.enableCORS next r w) !! "Access-Control-Allow-Headers"
    = Some ["Content-Type"].
Proof.
  intros Hm. unfold cors.enableCORS. rewrite !decide_True by done.
  split; [done|]. split.
  - unfold cors.WriteHeader, cors.Header_Set. simpl. by intros ->.
  - rewrite WriteHeader_Header. unfold cors.Header_Set. simpl.
    split_and!.
    + rewrite lookup_insert_ne by done. rewrite lookup_insert_ne by done.
      by rewrite lookup_insert_eq.
    + rewrite lookup_insert_ne by done. by rewrite lookup_insert_eq.
    + by rewrite lookup_insert_eq.
Qed.

Lemma preflight_answered_by_middleware_witness :
  cors.Code (cors.enableCORS not_found {| cors.Method := "OPTIONS" |} blank)
  = Some 200.
Proof.
  destruct (preflight_answered_by_middleware not_found not_found
              {| cors.Method := "OPTIONS" |} blank) as (_ & H & _).
  - reflexivity.
  - apply H. reflexivity.
Defined.

(** X13. The CORS middleware can be applied twice.  Wrapping a handler
    twice answers every request as wrapping it once does. *)
Theorem enableCORS_idempotent next r w :
  cors.enableCORS (cors.enableCORS next) r w = cors.enableCORS next r w.
Proof.
  unfold cors.enableCORS. case_decide as Hm; [done|]. f_equal.
  unfold cors.Header_Set. simpl. f_equal.
  apply map_eq. intros k. rewrite !lookup_insert.
  repeat case_decide; done.
Qed.

(** X14. Registering one more backend.  A backend registered under a key
    other than "price", "stock" and "promotion" changes none of the fields
    of the Summary: a return of the round with it and a return of the round
    without it agree on the product id and on the three values and
    statuses. *)
Theorem extra_backend_leaves_fields reg env productID key fn s1 e1 s2 e2 :
  key ≠ "price" → key ≠ "stock" → key ≠ "promotion" →
  Returns (<[key := fn]> reg) env productID s1 e1 →
  Returns reg env productID s2 e2 →
  ProductID s1 = ProductID s2
  ∧ Price s1 = Price s2 ∧ PriceStatus s1 = PriceStatus s2
  ∧ Stock s1 = Stock s2 ∧ StockStatus s1 = StockStatus s2
  ∧ Promotion s1 = Promotion s2 ∧ PromotionStatus s1 = PromotionStatus s2.
Proof.
  intros Hp Hs Hm.
  intros (_ & _ & Hid1 & _ & Hp1 & Hs1 & Hm1 & _)%Returns_summary.
  intros (_ & _ & Hid2 & _ & Hp2 & Hs2 & Hm2 & _)%Returns_summary.
  unfold outcome in Hp1, Hs1, Hm1.
  rewrite lookup_insert_ne in Hp1 by done.
  rewrite lookup_insert_ne in Hs1 by done.
  rewrite lookup_insert_ne in Hm1 by done.
  unfold outcome in Hp2, Hs2, Hm2.
  rewrite Hp1 in Hp2. rewrite Hs1 in Hs2. rewrite Hm1 in Hm2.
  simplify_eq. split_and!; congruence.
Qed.

Lemma with_tax_returns :
  Returns with_tax prompt "SKU-1" (all_success_but_tax "SKU-1") None.
Proof. exists four_workers. eexists. split; vm_compute; reflexivity. Qed.

Lemma extra_backend_leaves_fields_witness :
  Price (all_success_but_tax "SKU-1") = Price (all_success "SKU-1")
  ∧ PriceStatus (all_success_but_tax "SKU-1") = PriceStatus (all_success "SKU-1").
Proof.
  destruct (extra_backend_leaves_fields ServiceMap prompt "SKU-1" "tax" failing
              (all_success_but_tax "SKU-1") None (all_success "SKU-1") None)
    as (_ & H1 & H2 & _).
  - discriminate.
  - discriminate.
  - discriminate.
  - exact with_tax_returns.
  - exact interleaved_all_success.
  - split; [exact H1 | exact H2].
Defined.

(** X15. One backend's timing does not reach another's field.  Two rounds
    over the same registry and product id in which the worker of a key
    meets the same timing return the same value and status for that key,
    whatever happens to the other workers. *)
Theorem field_depends_on_own_backend reg env1 env2 productID s1 e1 s2 e2 :
  Returns reg env1 productID s1 e1 →
  Returns reg env2 productID s2 e2 →
  (env1 "price" = env2 "price" →
     Price s1 = Price s2 ∧ PriceStatus s1 = PriceStatus s2)
  ∧ (env1 "stock" = env2 "stock" →
     Stock s1 = Stock s2 ∧ StockStatus s1 = StockStatus s2)
  ∧ (env1 "promotion" = env2 "promotion" →
     Promotion s1 = Promotion s2 ∧ PromotionStatus s1 = PromotionStatus s2).
Proof.
  intros (_ & _ & _ & _ & Hp1 & Hs1 & Hm1 & _)%Returns_summary.
  intros (_ & _ & _ & _ & Hp2 & Hs2 & Hm2 & _)%Returns_summary.
  unfold outcome in *.
  split_and!; intros Heq.
  - rewrite Heq in Hp1. rewrite Hp1 in Hp2. by simplify_eq.
  - rewrite Heq in Hs1. rewrite Hs1 in Hs2. by simplify_eq.
  - rewrite Heq in Hm1. rewrite Hm1 in Hm2. by simplify_eq.
Qed.

Lemma price_stalled_returns :
  Returns ServiceMap price_stalled "SKU-1" (price_timed_out "SKU-1") None.
Proof. exists interleaved. eexists. split; vm_compute; reflexivity. Qed.

Lemma field_depends_on_own_backend_witness :
  Stock (all_success "SKU-1") = Stock (price_timed_out "SKU-1")
  ∧ StockStatus (all_success "SKU-1") = StockStatus (price_timed_out "SKU-1").
Proof.
  destruct (field_depends_on_own_backend ServiceMap prompt price_stalled
              "SKU-1" (all_success "SKU-1") None
              (price_timed_out "SKU-1") None
              interleaved_all_success price_stalled_returns)
    as (_ & H & _).
  apply H. reflexivity.
Defined.

(** X16. What the log shows for a failed backend.  The text of the
    ServiceError of an outcome of a backend written with simulatedCall is
    "Service '<key>' timed out: Service execution exceeded the global
    aggregation timeout (context deadline exceeded)" when the deadline cut
    the call, and "Service '<key>' failed: External service call failed
    (backend server responded with 503)" when the backend failed. *)
Theorem failure_text ctx tm key productID fn delay fail value r e :
  fn ctx tm productID = Some (simulatedCall ctx tm delay productID fail value) →
  executeService ctx tm key productID fn = Some r →
  FetchResult.Error r = Some e →
  (select ctx tm delay = CtxDone
   ∧ text.ServiceError_Error e
     = String.append "Service '" (String.append key
         "' timed out: Service execution exceeded the global aggregation timeout (context deadline exceeded)"))
  ∨ (select ctx tm delay = TimerFired ∧ fail = true
     ∧ text.ServiceError_Error e
       = String.append "Service '" (String.append key
           "' failed: External service call failed (backend server responded with 503)")).
Proof.
  intros Hfn Hr He.
  destruct (executeService_simulated _ _ _ _ _ _ _ _ _ Hfn Hr)
    as (_ & [(_ & _ & _ & _ & Hnone)|[(Hsel & Hfail & _ & Herr)|(Hsel & _ & Herr)]]).
  - congruence.
  - right. rewrite Herr in He. simplify_eq. done.
  - left. rewrite Herr in He. simplify_eq. done.
Qed.

Lemma failure_text_witness :
  text.ServiceError_Error (failed "stock")
  = "Service 'stock' failed: External service call failed (backend server responded with 503)".
Proof.
  destruct (failure_text ctx (prompt "stock") "stock" "SKU-1" failing
              (100 * Millisecond) true (VInt 7)
              {| FetchResult.Key := "stock";
                 FetchResult.Value := VNil;
                 FetchResult.Status := StatusError;
                 FetchResult.Error := Some (failed "stock") |}
              (failed "stock"))
    as [(Hsel & _)|(_ & _ & Htext)].
  - reflexivity.
  - vm_compute. reflexivity.
  - reflexivity.
  - vm_compute in Hsel. discriminate Hsel.
  - rewrite Htext. reflexivity.
Defined.

(** X17. A worker that starts too late.  With the shipped registry, when
    the worker of a key reaches its backend call at or after the deadline,
    the call is cut at once: every returned Summary has the fallback
    constant and the status FALLBACK for that key, for every product id. *)
Theorem late_worker_falls_back env productID summary err :
  Returns ServiceMap env productID summary err →
  (aggregationTimeout ≤ started (env "price") →
     Price summary = 0%float ∧ PriceStatus summary = StatusFallback)
  ∧ (aggregationTimeout ≤ started (env "stock") →
     Stock summary = 0 ∧ StockStatus summary = StatusFallback)
  ∧ (aggregationTimeout ≤ started (env "promotion") →
     Promotion summary = "No promotions available"
     ∧ PromotionStatus summary = StatusFallback).
Proof.
  intros (_ & _ & _ & _ & Hp & Hs & Hm & _)%Returns_summary.
  split_and!; intros Hlate.
  - assert (select ctx (env "price") (price_delay productID) = CtxDone) as Hsel.
    { apply select_deadline; unfold timer_at, price_delay, ctx, WithTimeout;
        case_decide; simpl; unfold aggregationTimeout, Millisecond in *; lia. }
    destruct (outcome_price env productID)
      as (r & Hr & _ & [(Hc & _)|(_ & Hst & _)]); [congruence|].
    rewrite Hr in Hp. unfold price_field in Hp.
    rewrite decide_False in Hp by (by rewrite Hst). by simplify_eq.
  - assert (select ctx (env "stock") (400 * Millisecond) = CtxDone) as Hsel.
    { apply select_deadline; unfold timer_at, ctx, WithTimeout; simpl;
        unfold aggregationTimeout, Millisecond in *; lia. }
    destruct (outcome_stock env productID)
      as (r & Hr & _ & [(Hc & _)|(_ & Hst & _)]); [congruence|].
    rewrite Hr in Hs. unfold stock_field in Hs.
    rewrite decide_False in Hs by (by rewrite Hst). by simplify_eq.
  - assert (select ctx (env "promotion") (50 * Millisecond) = CtxDone) as Hsel.
    { apply select_deadline; unfold timer_at, ctx, WithTimeout; simpl;
        unfold aggregationTimeout, Millisecond in *; lia. }
    destruct (outcome_promotion env productID)
      as (r & Hr & _ & [(Hc & _)|(_ & Hst & _)]); [congruence|].
    rewrite Hr in Hm. unfold promotion_field in Hm.
    rewrite decide_False in Hm by (by rewrite Hst). by simplify_eq.
Qed.

Lemma price_after_deadline_returns :
  Returns ServiceMap price_after_deadline "SKU-1" (price_timed_out "SKU-1") None.
Proof. exists interleaved. eexists. split; vm_compute; reflexivity. Qed.

Lemma late_worker_falls_back_witness :
  Price (price_timed_out "SKU-1") = 0%float
  ∧ PriceStatus (price_timed_out "SKU-1") = StatusFallback.
Proof.
  destruct (late_worker_falls_back price_after_deadline "SKU-1"
              (price_timed_out "SKU-1") None price_after_deadline_returns)
    as (H & _).
  apply H. vm_compute. discriminate.
Defined.
